(** * squish.core: flat arrays, bit set, and 2D vector / 2x2 matrix algebra

    A shallow embedding of [src/squish/core.pyx].

    - [FLOAT_T] and [INT_T] are declared in [core.pxd], which is not part of
      the sources at hand.  [FLOAT_T] is modelled by IEEE-754 binary floats
      ([spec_float]) of an arbitrary format [prec], [emax]; the byte size of
      [INT_T] is a parameter [sizeof_INT_T].
    - [Vector2D* self] and [Matrix2x2* self] are pointers: the receivers live
      in a store, the mutating operations write to it and hand the pointer
      back, the copying operations only read it.
    - Buffers ([INT_T*], [FLOAT_T*]) are lists; an access outside the buffer
      is undefined in C and is [None] here.
    - The file sets no [cdivision] directive, so every [/] and [/=] is a
      checked division: a zero divisor raises [ZeroDivisionError] before the
      quotient is taken. *)

From Stdlib Require Import ZArith Bool Lia String.
From Stdlib Require Import Floats.SpecFloat.
From stdpp Require Import base option list gmap.

Local Open Scope Z_scope.

(** ** Store and pointer monad *)

Definition loc := Z.

Notation "'heap'" := (gmap loc).

(** A computation over a store of [T] cells; [None] is a dereference of a
    pointer that points to no cell. *)
Definition M (T A : Type) := heap T -> option (A * heap T).

Definition ret {T A} (a : A) : M T A := fun h => Some (a, h).

Definition bind {T A B} (m : M T A) (k : A -> M T B) : M T B :=
  fun h => match m h with
           | Some (a, h') => k a h'
           | None => None
           end.

Definition load {T} (p : loc) : M T T :=
  fun h => match h !! p with
           | Some v => Some (v, h)
           | None => None
           end.

Definition store {T} (p : loc) (v : T) : M T unit :=
  fun h => match h !! p with
           | Some _ => Some (tt, <[p := v]> h)
           | None => None
           end.

Declare Scope heap_scope.
Delimit Scope heap_scope with heap.
Notation "'let*' a := m 'in' k" := (bind m (fun a => k))
  (at level 10, a name, m at level 100, k at level 200) : heap_scope.
Notation "m ;; k" := (bind m (fun _ => k))
  (at level 100, k at level 200, right associativity) : heap_scope.

(** ** Structures *)

Definition FLOAT_T := spec_float.

(** [ZeroDivisionError("float division")], which a checked division raises
    when its divisor compares equal to zero. *)
Inductive ZeroDivisionError := float_division.

(** How a method that divides ends: it returns, or it raises at the check
    of a division; the store is the one reached at that point. *)
Inductive result (A : Type) := Done (a : A) | Raised (e : ZeroDivisionError).
Arguments Done {A} a.
Arguments Raised {A} e.

(** C's [a == 0]: true for a zero of either sign, false for NaN. *)
Definition is_zero (a : FLOAT_T) : bool :=
  match a with S754_zero _ => true | _ => false end.

Definition raise {T A} (e : ZeroDivisionError) : M T (result A) :=
  ret (Raised e).

(** A method that has no division always returns. *)
Definition done {T A} (m : M T A) : M T (result A) :=
  bind m (fun a => ret (Done a)).

(** A call on what the call before returned; after a raise nothing more is
    called. *)
Definition and_then {T A B} (m : M T (result A)) (k : A -> M T (result B))
  : M T (result B) :=
  bind m (fun r => match r with
                   | Done a => k a
                   | Raised e => raise e
                   end).

(** The [self] and [copy] members of both structs always hold the four
    module-level tables [VSO], [VCO], [MSO], [MCO]; they are the constants
    below and not repeated in every value. *)
Record Vector2D := MkVector2D { vx : FLOAT_T; vy : FLOAT_T }.

Record Matrix2x2 := MkMatrix2x2
  { ma : FLOAT_T; mb : FLOAT_T; mc : FLOAT_T; md : FLOAT_T }.

Module VectorSelfOps.
Record t := Mk
  { neg : loc -> M Vector2D loc;
    vadd : loc -> Vector2D -> M Vector2D loc;
    vsub : loc -> Vector2D -> M Vector2D loc;
    vmul : loc -> Vector2D -> M Vector2D loc;
    vdiv : loc -> Vector2D -> M Vector2D (result loc);
    sadd : loc -> FLOAT_T -> M Vector2D loc;
    ssub : loc -> FLOAT_T -> M Vector2D loc;
    smul : loc -> FLOAT_T -> M Vector2D loc;
    sdiv : loc -> FLOAT_T -> M Vector2D (result loc);
    matmul : loc -> Matrix2x2 -> M Vector2D loc;
    rot : loc -> M Vector2D loc }.
End VectorSelfOps.

Module VectorCopyOps.
Record t := Mk
  { neg : loc -> M Vector2D Vector2D;
    vadd : loc -> Vector2D -> M Vector2D Vector2D;
    vsub : loc -> Vector2D -> M Vector2D Vector2D;
    vmul : loc -> Vector2D -> M Vector2D Vector2D;
    vdiv : loc -> Vector2D -> M Vector2D (result Vector2D);
    sadd : loc -> FLOAT_T -> M Vector2D Vector2D;
    ssub : loc -> FLOAT_T -> M Vector2D Vector2D;
    smul : loc -> FLOAT_T -> M Vector2D Vector2D;
    sdiv : loc -> FLOAT_T -> M Vector2D (result Vector2D);
    matmul : loc -> Matrix2x2 -> M Vector2D Vector2D;
    rot : loc -> M Vector2D Vector2D }.
End VectorCopyOps.

Module MatrixSelfOps.
Record t := Mk
  { neg : loc -> M Matrix2x2 loc;
    madd : loc -> Matrix2x2 -> M Matrix2x2 loc;
    msub : loc -> Matrix2x2 -> M Matrix2x2 loc;
    mmul : loc -> Matrix2x2 -> M Matrix2x2 loc;
    mdiv : loc -> Matrix2x2 -> M Matrix2x2 (result loc);
    sadd : loc -> FLOAT_T -> M Matrix2x2 loc;
    ssub : loc -> FLOAT_T -> M Matrix2x2 loc;
    smul : loc -> FLOAT_T -> M Matrix2x2 loc;
    sdiv : loc -> FLOAT_T -> M Matrix2x2 (result loc);
    matmul : loc -> Matrix2x2 -> M Matrix2x2 loc;
    T : loc -> M Matrix2x2 loc }.
End MatrixSelfOps.

Module MatrixCopyOps.
Record t := Mk
  { neg : loc -> M Matrix2x2 Matrix2x2;
    madd : loc -> Matrix2x2 -> M Matrix2x2 Matrix2x2;
    msub : loc -> Matrix2x2 -> M Matrix2x2 Matrix2x2;
    mmul : loc -> Matrix2x2 -> M Matrix2x2 Matrix2x2;
    mdiv : loc -> Matrix2x2 -> M Matrix2x2 (result Matrix2x2);
    sadd : loc -> FLOAT_T -> M Matrix2x2 Matrix2x2;
    ssub : loc -> FLOAT_T -> M Matrix2x2 Matrix2x2;
    smul : loc -> FLOAT_T -> M Matrix2x2 Matrix2x2;
    sdiv : loc -> FLOAT_T -> M Matrix2x2 (result Matrix2x2);
    matmul : loc -> Matrix2x2 -> M Matrix2x2 Matrix2x2;
    T : loc -> M Matrix2x2 Matrix2x2 }.
End MatrixCopyOps.

(** Field reads and writes through a pointer. *)
Section Fields.
Local Open Scope heap_scope.

Definition rd {T} (f : T -> FLOAT_T) (p : loc) : M T FLOAT_T :=
  let* v := load p in ret (f v).

Definition wr {T} (upd : FLOAT_T -> T -> T) (p : loc) (a : FLOAT_T)
  : M T unit :=
  let* v := load p in store p (upd a v).

Definition set_vx (a : FLOAT_T) (v : Vector2D) := MkVector2D a (vy v).
Definition set_vy (a : FLOAT_T) (v : Vector2D) := MkVector2D (vx v) a.

Definition set_ma (x : FLOAT_T) (m : Matrix2x2) :=
  MkMatrix2x2 x (mb m) (mc m) (md m).
Definition set_mb (x : FLOAT_T) (m : Matrix2x2) :=
  MkMatrix2x2 (ma m) x (mc m) (md m).
Definition set_mc (x : FLOAT_T) (m : Matrix2x2) :=
  MkMatrix2x2 (ma m) (mb m) x (md m).
Definition set_md (x : FLOAT_T) (m : Matrix2x2) :=
  MkMatrix2x2 (ma m) (mb m) (mc m) x.
End Fields.

(** ** Vector2D and Matrix2x2 methods *)

Section Algebra.
(** The floating-point format of [FLOAT_T]: [prec] bits of mantissa,
    exponents below [emax] (53 and 1024 for a C double). *)
Variables prec emax : Z.

Definition fneg (a : FLOAT_T) : FLOAT_T := SFopp a.
Definition fadd (a b : FLOAT_T) : FLOAT_T := SFadd prec emax a b.
Definition fsub (a b : FLOAT_T) : FLOAT_T := SFsub prec emax a b.
Definition fmul (a b : FLOAT_T) : FLOAT_T := SFmul prec emax a b.
Definition fdiv (a b : FLOAT_T) : FLOAT_T := SFdiv prec emax a b.
(** C's [==] on floats: false on NaN, true on zeros of either sign. *)
Definition feq (a b : FLOAT_T) : bool := SFeqb a b.

Declare Scope flt_scope.
Local Notation "- a" := (fneg a) : flt_scope.
Local Infix "+" := fadd : flt_scope.
Local Infix "-" := fsub : flt_scope.
Local Infix "*" := fmul : flt_scope.
Local Infix "/" := fdiv : flt_scope.
Local Open Scope flt_scope.
Local Open Scope heap_scope.

Definition _Vector2D (x y : FLOAT_T) : Vector2D := MkVector2D x y.

Definition _Matrix2x2 (a b c d : FLOAT_T) : Matrix2x2 := MkMatrix2x2 a b c d.

Definition v_equals (self : loc) (w : Vector2D) : M Vector2D bool :=
  let* sx := rd vx self in
  if feq sx (vx w)
  then let* sy := rd vy self in ret (feq sy (vy w))
  else ret false.

Definition v_neg_s (self : loc) : M Vector2D loc :=
  let* sx := rd vx self in wr set_vx self (- sx) ;;
  let* sy := rd vy self in wr set_vy self (- sy) ;;
  ret self.

Definition v_vadd_s (self : loc) (w : Vector2D) : M Vector2D loc :=
  let* sx := rd vx self in wr set_vx self (sx + vx w) ;;
  let* sy := rd vy self in wr set_vy self (sy + vy w) ;;
  ret self.

Definition v_vsub_s (self : loc) (w : Vector2D) : M Vector2D loc :=
  let* sx := rd vx self in wr set_vx self (sx - vx w) ;;
  let* sy := rd vy self in wr set_vy self (sy - vy w) ;;
  ret self.

Definition v_vmul_s (self : loc) (w : Vector2D) : M Vector2D loc :=
  let* sx := rd vx self in wr set_vx self (sx * vx w) ;;
  let* sy := rd vy self in wr set_vy self (sy * vy w) ;;
  ret self.

(** Each division is preceded by its check, statement by statement: a
    component divided before the failing check has already been written. *)
Definition v_vdiv_s (self : loc) (w : Vector2D) : M Vector2D (result loc) :=
  if is_zero (vx w) then raise float_division else
  let* sx := rd vx self in wr set_vx self (sx / vx w) ;;
  if is_zero (vy w) then raise float_division else
  let* sy := rd vy self in wr set_vy self (sy / vy w) ;;
  ret (Done self).

Definition v_sadd_s (self : loc) (s : FLOAT_T) : M Vector2D loc :=
  let* sx := rd vx self in wr set_vx self (sx + s) ;;
  let* sy := rd vy self in wr set_vy self (sy + s) ;;
  ret self.

Definition v_ssub_s (self : loc) (s : FLOAT_T) : M Vector2D loc :=
  let* sx := rd vx self in wr set_vx self (sx - s) ;;
  let* sy := rd vy self in wr set_vy self (sy - s) ;;
  ret self.

Definition v_smul_s (self : loc) (s : FLOAT_T) : M Vector2D loc :=
  let* sx := rd vx self in wr set_vx self (sx * s) ;;
  let* sy := rd vy self in wr set_vy self (sy * s) ;;
  ret self.

Definition v_sdiv_s (self : loc) (s : FLOAT_T) : M Vector2D (result loc) :=
  if is_zero s then raise float_division else
  let* sx := rd vx self in wr set_vx self (sx / s) ;;
  if is_zero s then raise float_division else
  let* sy := rd vy self in wr set_vy self (sy / s) ;;
  ret (Done self).

(** A tuple assignment evaluates its whole right-hand side before it
    writes the first target. *)
Definition v_matmul_s (self : loc) (m : Matrix2x2) : M Vector2D loc :=
  let* sx := rd vx self in
  let* sy := rd vy self in
  let t1 := sx * ma m + sy * mc m in
  let* sx' := rd vx self in
  let* sy' := rd vy self in
  let t2 := sx' * mb m + sy' * md m in
  wr set_vx self t1 ;;
  wr set_vy self t2 ;;
  ret self.

Definition rot_s (self : loc) : M Vector2D loc :=
  let* sy := rd vy self in
  let t1 := - sy in
  let* t2 := rd vx self in
  wr set_vx self t1 ;;
  wr set_vy self t2 ;;
  ret self.

Definition v_neg_c (self : loc) : M Vector2D Vector2D :=
  let* sx := rd vx self in
  let* sy := rd vy self in
  ret (_Vector2D (- sx) (- sy)).

Definition v_vadd_c (self : loc) (w : Vector2D) : M Vector2D Vector2D :=
  let* sx := rd vx self in
  let* sy := rd vy self in
  ret (_Vector2D (sx + vx w) (sy + vy w)).

Definition v_vsub_c (self : loc) (w : Vector2D) : M Vector2D Vector2D :=
  let* sx := rd vx self in
  let* sy := rd vy self in
  ret (_Vector2D (sx - vx w) (sy - vy w)).

Definition v_vmul_c (self : loc) (w : Vector2D) : M Vector2D Vector2D :=
  let* sx := rd vx self in
  let* sy := rd vy self in
  ret (_Vector2D (sx * vx w) (sy * vy w)).

Definition v_vdiv_c (self : loc) (w : Vector2D)
  : M Vector2D (result Vector2D) :=
  if is_zero (vx w) then raise float_division else
  let* sx := rd vx self in
  if is_zero (vy w) then raise float_division else
  let* sy := rd vy self in
  ret (Done (_Vector2D (sx / vx w) (sy / vy w))).

Definition v_sadd_c (self : loc) (s : FLOAT_T) : M Vector2D Vector2D :=
  let* sx := rd vx self in
  let* sy := rd vy self in
  ret (_Vector2D (sx + s) (sy + s)).

Definition v_ssub_c (self : loc) (s : FLOAT_T) : M Vector2D Vector2D :=
  let* sx := rd vx self in
  let* sy := rd vy self in
  ret (_Vector2D (sx + s) (sy + s)).

Definition v_smul_c (self : loc) (s : FLOAT_T) : M Vector2D Vector2D :=
  let* sx := rd vx self in
  let* sy := rd vy self in
  ret (_Vector2D (sx * s) (sy * s)).

Definition v_sdiv_c (self : loc) (s : FLOAT_T)
  : M Vector2D (result Vector2D) :=
  if is_zero s then raise float_division else
  let* sx := rd vx self in
  if is_zero s then raise float_division else
  let* sy := rd vy self in
  ret (Done (_Vector2D (sx / s) (sy / s))).

Definition v_matmul_c (self : loc) (m : Matrix2x2) : M Vector2D Vector2D :=
  let* sx := rd vx self in
  let* sy := rd vy self in
  let t1 := sx * ma m + sy * mc m in
  let* sx' := rd vx self in
  let* sy' := rd vy self in
  ret (_Vector2D t1 (sx' * mb m + sy' * md m)).

Definition rot_c (self : loc) : M Vector2D Vector2D :=
  let* sy := rd vy self in
  let* sx := rd vx self in
  ret (_Vector2D (- sy) sx).

Definition dot (self : loc) (w : Vector2D) : M Vector2D FLOAT_T :=
  let* sx := rd vx self in
  let* sy := rd vy self in
  ret (sx * vx w + sy * vy w).

Definition v_vecmul (self : loc) (v : Vector2D) : M Vector2D Matrix2x2 :=
  let* sx := rd vx self in
  let* sy := rd vy self in
  ret (_Matrix2x2 (sx * vx v) (sx * vy v) (sy * vx v) (sy * vy v)).

Definition m_equals (self : loc) (m : Matrix2x2) : M Matrix2x2 bool :=
  let* sa := rd ma self in
  if feq sa (ma m) then
    let* sb := rd mb self in
    if feq sb (mb m) then
      let* sc := rd mc self in
      if feq sc (mc m) then
        let* sd := rd md self in ret (feq sd (md m))
      else ret false
    else ret false
  else ret false.

Definition m_vecmul (self : loc) (v : Vector2D) : M Matrix2x2 Vector2D :=
  let* sa := rd ma self in
  let* sb := rd mb self in
  let t1 := sa * vx v + sb * vy v in
  let* sc := rd mc self in
  let* sd := rd md self in
  ret (_Vector2D t1 (sc * vx v + sd * vy v)).

Definition m_neg_s (self : loc) : M Matrix2x2 loc :=
  let* sa := rd ma self in
  let* sb := rd mb self in
  let* sc := rd mc self in
  let* sd := rd md self in
  wr set_ma self (- sa) ;;
  wr set_mb self (- sb) ;;
  wr set_mc self (- sc) ;;
  wr set_md self (- sd) ;;
  ret self.

Definition m_madd_s (self : loc) (m : Matrix2x2) : M Matrix2x2 loc :=
  let* sa := rd ma self in wr set_ma self (sa + ma m) ;;
  let* sb := rd mb self in wr set_mb self (sb + mb m) ;;
  let* sc := rd mc self in wr set_mc self (sc + mc m) ;;
  let* sd := rd md self in wr set_md self (sd + md m) ;;
  ret self.

Definition m_msub_s (self : loc) (m : Matrix2x2) : M Matrix2x2 loc :=
  let* sa := rd ma self in wr set_ma self (sa - ma m) ;;
  let* sb := rd mb self in wr set_mb self (sb - mb m) ;;
  let* sc := rd mc self in wr set_mc self (sc - mc m) ;;
  let* sd := rd md self in wr set_md self (sd - md m) ;;
  ret self.

Definition m_mmul_s (self : loc) (m : Matrix2x2) : M Matrix2x2 loc :=
  let* sa := rd ma self in wr set_ma self (sa * ma m) ;;
  let* sb := rd mb self in wr set_mb self (sb * mb m) ;;
  let* sc := rd mc self in wr set_mc self (sc * mc m) ;;
  let* sd := rd md self in wr set_md self (sd * md m) ;;
  ret self.

Definition m_mdiv_s (self : loc) (m : Matrix2x2) : M Matrix2x2 (result loc) :=
  if is_zero (ma m) then raise float_division else
  let* sa := rd ma self in wr set_ma self (sa / ma m) ;;
  if is_zero (mb m) then raise float_division else
  let* sb := rd mb self in wr set_mb self (sb / mb m) ;;
  if is_zero (mc m) then raise float_division else
  let* sc := rd mc self in wr set_mc self (sc / mc m) ;;
  if is_zero (md m) then raise float_division else
  let* sd := rd md self in wr set_md self (sd / md m) ;;
  ret (Done self).

Definition m_sadd_s (self : loc) (s : FLOAT_T) : M Matrix2x2 loc :=
  let* sa := rd ma self in wr set_ma self (sa + s) ;;
  let* sb := rd mb self in wr set_mb self (sb + s) ;;
  let* sc := rd mc self in wr set_mc self (sc + s) ;;
  let* sd := rd md self in wr set_md self (sd + s) ;;
  ret self.

Definition m_ssub_s (self : loc) (s : FLOAT_T) : M Matrix2x2 loc :=
  let* sa := rd ma self in wr set_ma self (sa - s) ;;
  let* sb := rd mb self in wr set_mb self (sb - s) ;;
  let* sc := rd mc self in wr set_mc self (sc - s) ;;
  let* sd := rd md self in wr set_md self (sd - s) ;;
  ret self.

Definition m_smul_s (self : loc) (s : FLOAT_T) : M Matrix2x2 loc :=
  let* sa := rd ma self in wr set_ma self (sa * s) ;;
  let* sb := rd mb self in wr set_mb self (sb * s) ;;
  let* sc := rd mc self in wr set_mc self (sc * s) ;;
  let* sd := rd md self in wr set_md self (sd * s) ;;
  ret self.

Definition m_sdiv_s (self : loc) (s : FLOAT_T) : M Matrix2x2 (result loc) :=
  if is_zero s then raise float_division else
  let* sa := rd ma self in wr set_ma self (sa / s) ;;
  if is_zero s then raise float_division else
  let* sb := rd mb self in wr set_mb self (sb / s) ;;
  if is_zero s then raise float_division else
  let* sc := rd mc self in wr set_mc self (sc / s) ;;
  if is_zero s then raise float_division else
  let* sd := rd md self in wr set_md self (sd / s) ;;
  ret (Done self).

Definition m_matmul_s (self : loc) (m : Matrix2x2) : M Matrix2x2 loc :=
  let* a1 := rd ma self in
  let* b1 := rd mb self in
  let t1 := a1 * ma m + b1 * mc m in
  let* a2 := rd ma self in
  let* b2 := rd mb self in
  let t2 := a2 * mb m + b2 * md m in
  let* c3 := rd mc self in
  let* d3 := rd md self in
  let t3 := c3 * ma m + d3 * mc m in
  let* c4 := rd mc self in
  let* d4 := rd md self in
  let t4 := c4 * mb m + d4 * md m in
  wr set_ma self t1 ;;
  wr set_mb self t2 ;;
  wr set_mc self t3 ;;
  wr set_md self t4 ;;
  ret self.

Definition m_transpose_s (self : loc) : M Matrix2x2 loc :=
  let* t1 := rd mc self in
  let* t2 := rd mb self in
  wr set_mb self t1 ;;
  wr set_mc self t2 ;;
  ret self.

Definition m_neg_c (self : loc) : M Matrix2x2 Matrix2x2 :=
  let* sa := rd ma self in
  let* sb := rd mb self in
  let* sc := rd mc self in
  let* sd := rd md self in
  ret (_Matrix2x2 (- sa) (- sb) (- sc) (- sd)).

Definition m_madd_c (self : loc) (m : Matrix2x2) : M Matrix2x2 Matrix2x2 :=
  let* sa := rd ma self in
  let* sb := rd mb self in
  let* sc := rd mc self in
  let* sd := rd md self in
  ret (_Matrix2x2 (sa + ma m) (sb + mb m) (sc + mc m) (sd + md m)).

Definition m_msub_c (self : loc) (m : Matrix2x2) : M Matrix2x2 Matrix2x2 :=
  let* sa := rd ma self in
  let* sb := rd mb self in
  let* sc := rd mc self in
  let* sd := rd md self in
  ret (_Matrix2x2 (sa - ma m) (sb - mb m) (sc - mc m) (sd - md m)).

Definition m_mmul_c (self : loc) (m : Matrix2x2) : M Matrix2x2 Matrix2x2 :=
  let* sa := rd ma self in
  let* sb := rd mb self in
  let* sc := rd mc self in
  let* sd := rd md self in
  ret (_Matrix2x2 (sa * ma m) (sb * mb m) (sc * mc m) (sd * md m)).

Definition m_mdiv_c (self : loc) (m : Matrix2x2)
  : M Matrix2x2 (result Matrix2x2) :=
  if is_zero (ma m) then raise float_division else
  let* sa := rd ma self in
  if is_zero (mb m) then raise float_division else
  let* sb := rd mb self in
  if is_zero (mc m) then raise float_division else
  let* sc := rd mc self in
  if is_zero (md m) then raise float_division else
  let* sd := rd md self in
  ret (Done (_Matrix2x2 (sa / ma m) (sb / mb m) (sc / mc m) (sd / md m))).

Definition m_sadd_c (self : loc) (s : FLOAT_T) : M Matrix2x2 Matrix2x2 :=
  let* sa := rd ma self in
  let* sb := rd mb self in
  let* sc := rd mc self in
  let* sd := rd md self in
  ret (_Matrix2x2 (sa + s) (sb + s) (sc + s) (sd + s)).

Definition m_ssub_c (self : loc) (s : FLOAT_T) : M Matrix2x2 Matrix2x2 :=
  let* sa := rd ma self in
  let* sb := rd mb self in
  let* sc := rd mc self in
  let* sd := rd md self in
  ret (_Matrix2x2 (sa - s) (sb - s) (sc - s) (sd - s)).

Definition m_smul_c (self : loc) (s : FLOAT_T) : M Matrix2x2 Matrix2x2 :=
  let* sa := rd ma self in
  let* sb := rd mb self in
  let* sc := rd mc self in
  let* sd := rd md self in
  ret (_Matrix2x2 (sa * s) (sb * s) (sc * s) (sd * s)).

Definition m_sdiv_c (self : loc) (s : FLOAT_T)
  : M Matrix2x2 (result Matrix2x2) :=
  if is_zero s then raise float_division else
  let* sa := rd ma self in
  if is_zero s then raise float_division else
  let* sb := rd mb self in
  if is_zero s then raise float_division else
  let* sc := rd mc self in
  if is_zero s then raise float_division else
  let* sd := rd md self in
  ret (Done (_Matrix2x2 (sa / s) (sb / s) (sc / s) (sd / s))).

Definition m_matmul_c (self : loc) (m : Matrix2x2) : M Matrix2x2 Matrix2x2 :=
  let* a1 := rd ma self in
  let* b1 := rd mb self in
  let t1 := a1 * ma m + b1 * mc m in
  let* a2 := rd ma self in
  let* b2 := rd mb self in
  let t2 := a2 * mb m + b2 * md m in
  let* c3 := rd mc self in
  let* d3 := rd md self in
  let t3 := c3 * ma m + d3 * mc m in
  let* c4 := rd mc self in
  let* d4 := rd md self in
  ret (_Matrix2x2 t1 t2 t3 (c4 * mb m + d4 * md m)).

Definition m_transpose_c (self : loc) : M Matrix2x2 Matrix2x2 :=
  let* sa := rd ma self in
  let* sc := rd mc self in
  let* sb := rd mb self in
  let* sd := rd md self in
  ret (_Matrix2x2 sa sc sb sd).

(** *** The four operation tables (lines 14-33) *)

Definition VSO : VectorSelfOps.t :=
  {| VectorSelfOps.neg := v_neg_s; VectorSelfOps.vadd := v_vadd_s;
     VectorSelfOps.vsub := v_vsub_s; VectorSelfOps.vmul := v_vmul_s;
     VectorSelfOps.vdiv := v_vdiv_s; VectorSelfOps.sadd := v_sadd_s;
     VectorSelfOps.ssub := v_ssub_s; VectorSelfOps.smul := v_smul_s;
     VectorSelfOps.sdiv := v_sdiv_s;
     VectorSelfOps.matmul := v_matmul_s; VectorSelfOps.rot := rot_s |}.

Definition VCO : VectorCopyOps.t :=
  {| VectorCopyOps.neg := v_neg_c; VectorCopyOps.vadd := v_vadd_c;
     VectorCopyOps.vsub := v_vsub_c; VectorCopyOps.vmul := v_vmul_c;
     VectorCopyOps.vdiv := v_vdiv_c; VectorCopyOps.sadd := v_sadd_c;
     VectorCopyOps.ssub := v_ssub_c; VectorCopyOps.smul := v_smul_c;
     VectorCopyOps.sdiv := v_sdiv_c;
     VectorCopyOps.matmul := v_matmul_c; VectorCopyOps.rot := rot_c |}.

Definition MSO : MatrixSelfOps.t :=
  {| MatrixSelfOps.neg := m_neg_s; MatrixSelfOps.madd := m_madd_s;
     MatrixSelfOps.msub := m_msub_s; MatrixSelfOps.mmul := m_mmul_s;
     MatrixSelfOps.mdiv := m_mdiv_s; MatrixSelfOps.sadd := m_sadd_s;
     MatrixSelfOps.ssub := m_ssub_s; MatrixSelfOps.smul := m_smul_s;
     MatrixSelfOps.sdiv := m_sdiv_s;
     MatrixSelfOps.matmul := m_matmul_s; MatrixSelfOps.T := m_transpose_s |}.

Definition MCO : MatrixCopyOps.t :=
  {| MatrixCopyOps.neg := m_neg_c; MatrixCopyOps.madd := m_madd_c;
     MatrixCopyOps.msub := m_msub_c; MatrixCopyOps.mmul := m_mmul_c;
     MatrixCopyOps.mdiv := m_mdiv_c; MatrixCopyOps.sadd := m_sadd_c;
     MatrixCopyOps.ssub := m_ssub_c; MatrixCopyOps.smul := m_smul_c;
     MatrixCopyOps.sdiv := m_sdiv_c;
     MatrixCopyOps.matmul := m_matmul_c; MatrixCopyOps.T := m_transpose_c |}.

(** *** Calls through the tables

    A call site writes [v.self.vadd(&v, w)] or [v.copy.vadd(&v, w)]: it
    names a table, an entry and the operand.  [VectorOp] and [MatrixOp]
    are the entries with their operand. *)

Inductive VectorOp :=
| Vneg | Vvadd (w : Vector2D) | Vvsub (w : Vector2D) | Vvmul (w : Vector2D)
| Vvdiv (w : Vector2D) | Vsadd (s : FLOAT_T) | Vssub (s : FLOAT_T)
| Vsmul (s : FLOAT_T) | Vsdiv (s : FLOAT_T) | Vmatmul (m : Matrix2x2)
| Vrot.

Inductive MatrixOp :=
| Mneg | Mmadd (m : Matrix2x2) | Mmsub (m : Matrix2x2) | Mmmul (m : Matrix2x2)
| Mmdiv (m : Matrix2x2) | Msadd (s : FLOAT_T) | Mssub (s : FLOAT_T)
| Msmul (s : FLOAT_T) | Msdiv (s : FLOAT_T) | Mmatmul (m : Matrix2x2)
| MT.

Definition vector_self (op : VectorOp) (self : loc) : M Vector2D (result loc) :=
  match op with
  | Vneg => done (VectorSelfOps.neg VSO self)
  | Vvadd w => done (VectorSelfOps.vadd VSO self w)
  | Vvsub w => done (VectorSelfOps.vsub VSO self w)
  | Vvmul w => done (VectorSelfOps.vmul VSO self w)
  | Vvdiv w => VectorSelfOps.vdiv VSO self w
  | Vsadd s => done (VectorSelfOps.sadd VSO self s)
  | Vssub s => done (VectorSelfOps.ssub VSO self s)
  | Vsmul s => done (VectorSelfOps.smul VSO self s)
  | Vsdiv s => VectorSelfOps.sdiv VSO self s
  | Vmatmul m => done (VectorSelfOps.matmul VSO self m)
  | Vrot => done (VectorSelfOps.rot VSO self)
  end.

Definition vector_copy (op : VectorOp) (self : loc) : M Vector2D (result Vector2D) :=
  match op with
  | Vneg => done (VectorCopyOps.neg VCO self)
  | Vvadd w => done (VectorCopyOps.vadd VCO self w)
  | Vvsub w => done (VectorCopyOps.vsub VCO self w)
  | Vvmul w => done (VectorCopyOps.vmul VCO self w)
  | Vvdiv w => VectorCopyOps.vdiv VCO self w
  | Vsadd s => done (VectorCopyOps.sadd VCO self s)
  | Vssub s => done (VectorCopyOps.ssub VCO self s)
  | Vsmul s => done (VectorCopyOps.smul VCO self s)
  | Vsdiv s => VectorCopyOps.sdiv VCO self s
  | Vmatmul m => done (VectorCopyOps.matmul VCO self m)
  | Vrot => done (VectorCopyOps.rot VCO self)
  end.

Definition matrix_self (op : MatrixOp) (self : loc) : M Matrix2x2 (result loc) :=
  match op with
  | Mneg => done (MatrixSelfOps.neg MSO self)
  | Mmadd m => done (MatrixSelfOps.madd MSO self m)
  | Mmsub m => done (MatrixSelfOps.msub MSO self m)
  | Mmmul m => done (MatrixSelfOps.mmul MSO self m)
  | Mmdiv m => MatrixSelfOps.mdiv MSO self m
  | Msadd s => done (MatrixSelfOps.sadd MSO self s)
  | Mssub s => done (MatrixSelfOps.ssub MSO self s)
  | Msmul s => done (MatrixSelfOps.smul MSO self s)
  | Msdiv s => MatrixSelfOps.sdiv MSO self s
  | Mmatmul m => done (MatrixSelfOps.matmul MSO self m)
  | MT => done (MatrixSelfOps.T MSO self)
  end.

Definition matrix_copy (op : MatrixOp) (self : loc) : M Matrix2x2 (result Matrix2x2) :=
  match op with
  | Mneg => done (MatrixCopyOps.neg MCO self)
  | Mmadd m => done (MatrixCopyOps.madd MCO self m)
  | Mmsub m => done (MatrixCopyOps.msub MCO self m)
  | Mmmul m => done (MatrixCopyOps.mmul MCO self m)
  | Mmdiv m => MatrixCopyOps.mdiv MCO self m
  | Msadd s => done (MatrixCopyOps.sadd MCO self s)
  | Mssub s => done (MatrixCopyOps.ssub MCO self s)
  | Msmul s => done (MatrixCopyOps.smul MCO self s)
  | Msdiv s => MatrixCopyOps.sdiv MCO self s
  | Mmatmul m => done (MatrixCopyOps.matmul MCO self m)
  | MT => done (MatrixCopyOps.T MCO self)
  end.

(** Whether a call raises: a division entry with a divisor component equal
    to zero. *)
Definition vector_op_raises (op : VectorOp) : bool :=
  match op with
  | Vvdiv w => is_zero (vx w) || is_zero (vy w)
  | Vsdiv s => is_zero s
  | _ => false
  end.

Definition matrix_op_raises (op : MatrixOp) : bool :=
  match op with
  | Mmdiv m =>
      is_zero (ma m) || is_zero (mb m) || is_zero (mc m) || is_zero (md m)
  | Msdiv s => is_zero s
  | _ => false
  end.

(** The value each table entry computes from the receiver [v], written
    with the formulas of section 4.4 and 4.5 of the specification. *)
Definition vector_spec (op : VectorOp) (v : Vector2D) : Vector2D :=
  match op with
  | Vneg => MkVector2D (- vx v) (- vy v)
  | Vvadd w => MkVector2D (vx v + vx w) (vy v + vy w)
  | Vvsub w => MkVector2D (vx v - vx w) (vy v - vy w)
  | Vvmul w => MkVector2D (vx v * vx w) (vy v * vy w)
  | Vvdiv w => MkVector2D (vx v / vx w) (vy v / vy w)
  | Vsadd s => MkVector2D (vx v + s) (vy v + s)
  | Vssub s => MkVector2D (vx v - s) (vy v - s)
  | Vsmul s => MkVector2D (vx v * s) (vy v * s)
  | Vsdiv s => MkVector2D (vx v / s) (vy v / s)
  | Vmatmul m =>
      MkVector2D (vx v * ma m + vy v * mc m) (vx v * mb m + vy v * md m)
  | Vrot => MkVector2D (- vy v) (vx v)
  end.

Definition matrix_spec (op : MatrixOp) (a : Matrix2x2) : Matrix2x2 :=
  match op with
  | Mneg => MkMatrix2x2 (- ma a) (- mb a) (- mc a) (- md a)
  | Mmadd m =>
      MkMatrix2x2 (ma a + ma m) (mb a + mb m) (mc a + mc m) (md a + md m)
  | Mmsub m =>
      MkMatrix2x2 (ma a - ma m) (mb a - mb m) (mc a - mc m) (md a - md m)
  | Mmmul m =>
      MkMatrix2x2 (ma a * ma m) (mb a * mb m) (mc a * mc m) (md a * md m)
  | Mmdiv m =>
      MkMatrix2x2 (ma a / ma m) (mb a / mb m) (mc a / mc m) (md a / md m)
  | Msadd s => MkMatrix2x2 (ma a + s) (mb a + s) (mc a + s) (md a + s)
  | Mssub s => MkMatrix2x2 (ma a - s) (mb a - s) (mc a - s) (md a - s)
  | Msmul s => MkMatrix2x2 (ma a * s) (mb a * s) (mc a * s) (md a * s)
  | Msdiv s => MkMatrix2x2 (ma a / s) (mb a / s) (mc a / s) (md a / s)
  | Mmatmul m =>
      MkMatrix2x2 (ma a * ma m + mb a * mc m) (ma a * mb m + mb a * md m)
                  (mc a * ma m + md a * mc m) (mc a * mb m + md a * md m)
  | MT => MkMatrix2x2 (ma a) (mc a) (mb a) (md a)
  end.

End Algebra.

(** ** IArray and FArray *)

Definition Pair := (Z * Z)%type.

Record IArray := MkIArray { iarray_arr : list Z; iarray_shape : Pair }.

Record FArray := MkFArray { farray_arr : list FLOAT_T; farray_shape : Pair }.

Definition _IArray (arr : list Z) (shape : Pair) : IArray := MkIArray arr shape.

Definition _FArray (arr : list FLOAT_T) (shape : Pair) : FArray :=
  MkFArray arr shape.

(** [IndexError(f"Index out of range for ... with shape {self.shape}")]: the
    literal text and the shape that is formatted into it. *)
Record IndexError := MkIndexError { err_text : string; err_shape : Pair }.

(** Flat offset [index[0]*self.shape[1] + index[1]]. *)
Definition offset (shape index : Pair) : Z := index.1 * shape.2 + index.2.

(** [p[i]]: defined inside the buffer only. *)
Definition buf_get {A} (buf : list A) (i : Z) : option A :=
  if i <? 0 then None else buf !! Z.to_nat i.

(** [p[i] = v]: defined inside the buffer only. *)
Definition buf_set {A} (buf : list A) (i : Z) (v : A) : option (list A) :=
  if (0 <=? i) && (i <? Z.of_nat (length buf))
  then Some (<[Z.to_nat i := v]> buf)
  else None.

(** The function returns nothing when the indices pass: a [bint] function
    that falls off its end returns false. *)
Definition iarray_valid_indices (self : IArray) (index : Pair)
  : IndexError + bool :=
  if (index.1 >? (iarray_shape self).1) || (index.2 >? (iarray_shape self).2)
  then inl (MkIndexError "Index out of range for IArray with shape "
                         (iarray_shape self))
  else inr false.

Definition iarray_get (self : IArray) (index : Pair) : option Z :=
  buf_get (iarray_arr self) (offset (iarray_shape self) index).

Definition iarray_set (self : IArray) (index : Pair) (val : Z)
  : option IArray :=
  arr' ← buf_set (iarray_arr self) (offset (iarray_shape self) index) val;
  Some (MkIArray arr' (iarray_shape self)).

Definition farray_valid_indices (self : FArray) (index : Pair)
  : IndexError + bool :=
  if (index.1 >? (farray_shape self).1) || (index.2 >? (farray_shape self).2)
  then inl (MkIndexError "Index out of range for FArray with shape "
                         (farray_shape self))
  else inr false.

Definition farray_get (self : FArray) (index : Pair) : option FLOAT_T :=
  buf_get (farray_arr self) (offset (farray_shape self) index).

Definition farray_set (self : FArray) (index : Pair) (val : FLOAT_T)
  : option FArray :=
  arr' ← buf_set (farray_arr self) (offset (farray_shape self) index) val;
  Some (MkFArray arr' (farray_shape self)).

(** The accessors with bounds checking switched on, that is with the
    commented-out first line of each accessor restored (the module comment:
    "If bound checking is desired, uncomment out ..._valid_indices
    functions"). *)
Definition iarray_get_checked (self : IArray) (index : Pair)
  : IndexError + option Z :=
  match iarray_valid_indices self index with
  | inl e => inl e
  | inr _ => inr (iarray_get self index)
  end.

Definition iarray_set_checked (self : IArray) (index : Pair) (val : Z)
  : IndexError + option IArray :=
  match iarray_valid_indices self index with
  | inl e => inl e
  | inr _ => inr (iarray_set self index val)
  end.

Definition farray_get_checked (self : FArray) (index : Pair)
  : IndexError + option FLOAT_T :=
  match farray_valid_indices self index with
  | inl e => inl e
  | inr _ => inr (farray_get self index)
  end.

Definition farray_set_checked (self : FArray) (index : Pair) (val : FLOAT_T)
  : IndexError + option FArray :=
  match farray_valid_indices self index with
  | inl e => inl e
  | inr _ => inr (farray_set self index val)
  end.

(** The invariant of section 3: the buffer has [rows*cols] elements. *)
Definition iarray_wf (self : IArray) : Prop :=
  0 <= (iarray_shape self).1 /\ 0 <= (iarray_shape self).2 /\
  Z.of_nat (length (iarray_arr self))
  = (iarray_shape self).1 * (iarray_shape self).2.

Definition farray_wf (self : FArray) : Prop :=
  0 <= (farray_shape self).1 /\ 0 <= (farray_shape self).2 /\
  Z.of_nat (length (farray_arr self))
  = (farray_shape self).1 * (farray_shape self).2.

Definition in_bounds (shape index : Pair) : Prop :=
  0 <= index.1 < shape.1 /\ 0 <= index.2 < shape.2.

(** ** BitSet *)

Record BitSet := MkBitSet { bits : list Z }.

Section BitSetOps.
(** [sizeof(INT_T)], in bytes. *)
Variable sizeof_INT_T : Z.

(** [calloc(elements/sizeof(INT_T) + 1, sizeof(INT_T))]: that many words,
    all zero.  The quotient is taken on a non-negative [elements], where
    C and Python division agree. *)
Definition _BitSet (elements : Z) : BitSet :=
  MkBitSet (replicate (Z.to_nat (elements / sizeof_INT_T + 1)) 0).

(** A negative [val] indexes before the buffer or shifts by a negative
    amount: undefined, like an index past the buffer. *)
Definition bitset_add (self : BitSet) (val : Z) : option (bool * BitSet) :=
  if val <? 0 then None else
  let index := val / sizeof_INT_T in
  old ← buf_get (bits self) index;
  let rel_index := val - index * sizeof_INT_T in
  bits' ← buf_set (bits self) index (Z.lor (Z.shiftl 1 rel_index) old);
  new ← buf_get bits' index;
  Some (old =? new, MkBitSet bits').

(** Membership as [bitset_add] encodes it: the bit of [val] is bit
    [val mod sizeof(INT_T)] of word [val / sizeof(INT_T)]. *)
Definition bitset_mem (self : BitSet) (val : Z) : bool :=
  match buf_get (bits self) (val / sizeof_INT_T) with
  | Some w => Z.testbit w (val - val / sizeof_INT_T * sizeof_INT_T)
  | None => false
  end.

(** [val] is within the capacity of the buffer. *)
Definition bitset_fits (self : BitSet) (val : Z) : Prop :=
  0 <= val /\ val / sizeof_INT_T < Z.of_nat (length (bits self)).

(** Every word uses its low [sizeof(INT_T)] bits only. *)
Definition words_small (self : BitSet) : Prop :=
  Forall (fun w => 0 <= w < 2 ^ sizeof_INT_T) (bits self).
End BitSetOps.

(** ** Concrete instances used in the examples below *)

(** The double nearest to an integer. *)
Definition F64 (z : Z) : FLOAT_T := binary_normalize 53 1024 z 0 false.

Definition vec_heap (x y : Z) : heap Vector2D :=
  {[ 1 := MkVector2D (F64 x) (F64 y) ]}.

Definition two_vec_heap : heap Vector2D :=
  {[ 1 := MkVector2D (F64 1) (F64 2); 2 := MkVector2D (F64 3) (F64 4) ]}.

Definition mat_heap (a b c d : Z) : heap Matrix2x2 :=
  {[ 1 := MkMatrix2x2 (F64 a) (F64 b) (F64 c) (F64 d) ]}.

Definition iarray_2x3 : IArray := _IArray [0; 0; 0; 0; 0; 0] (2, 3).

Definition farray_2x3 : FArray :=
  _FArray (replicate 6 (F64 0)) (2, 3).

(** Scalar subtraction is the one entry whose two variants disagree. *)
Definition is_Vssub (op : VectorOp) : bool :=
  match op with Vssub _ => true | _ => false end.

(** The word count as the specification words it:
    [ceil(max_element / word_bit_width) + 1]. *)
Definition bitset_words_spec (word_bit_width max_element : Z) : Z :=
  (max_element + word_bit_width - 1) / word_bit_width + 1.

(** ** Magnitude *)

Section Magnitude.
Variables prec emax : Z.

(** A C conversion of a float to the format [p], [e]: the nearest value of
    that format, ties to even; infinities, zeros and NaN are kept. *)
Definition fcast (p e : Z) (a : FLOAT_T) : FLOAT_T :=
  match a with
  | S754_finite s m ex => binary_round p e s m ex
  | _ => a
  end.

(** [sqrt] of libc, on doubles. *)
Definition c_sqrt (a : FLOAT_T) : FLOAT_T := SFsqrt 53 1024 a.

Definition mag (self : loc) : M Vector2D FLOAT_T :=
  (let* x1 := rd vx self in
   let* x2 := rd vx self in
   let* y1 := rd vy self in
   let* y2 := rd vy self in
   ret (fcast prec emax
          (c_sqrt (fcast 53 1024
                     (fadd prec emax (fmul prec emax x1 x2)
                                     (fmul prec emax y1 y2))))))%heap.
End Magnitude.

(** The sign bit of a float is clear, or the float is NaN. *)
Definition sign_clear (a : FLOAT_T) : Prop :=
  match a with
  | S754_nan => True
  | S754_zero s | S754_infinity s | S754_finite s _ _ => s = false
  end.

Definition is_nan (a : FLOAT_T) : bool :=
  match a with S754_nan => true | _ => false end.

(** ** Sequences of calls *)

(** [add] called on each value of [vals] in turn, on the same set. *)
Fixpoint bitset_add_seq (sizeof_INT_T : Z) (self : BitSet) (vals : list Z)
  : option BitSet :=
  match vals with
  | [] => Some self
  | val :: rest =>
      match bitset_add sizeof_INT_T self val with
      | Some (_, self') => bitset_add_seq sizeof_INT_T self' rest
      | None => None
      end
  end.

(** The value [m_transpose_c] returns for a receiver holding [a]. *)
Definition transposed (a : Matrix2x2) : Matrix2x2 :=
  MkMatrix2x2 (ma a) (mc a) (mb a) (md a).

Definition inf_matrix : Matrix2x2 :=
  MkMatrix2x2 (F64 1) (S754_infinity false) (F64 3) (F64 4).

Definition identity_matrix : Matrix2x2 :=
  MkMatrix2x2 (F64 1) (F64 0) (F64 0) (F64 1).

Definition inf_mat_heap : heap Matrix2x2 := {[ 1 := inf_matrix ]}.

(** * Proofs *)

(** ** Running the pointer monad *)

Lemma rd_run {T} (f : T -> FLOAT_T) p (h : heap T) v :
  h !! p = Some v -> rd f p h = Some (f v, h).
Proof. intros H. unfold rd, bind, load, ret. by rewrite H. Qed.

Lemma wr_run {T} (upd : FLOAT_T -> T -> T) p a (h : heap T) v :
  h !! p = Some v -> wr upd p a h = Some (tt, <[p := upd a v]> h).
Proof. intros H. cbv [wr bind load store]. rewrite H. simpl. by rewrite H. Qed.

Lemma bind_run {T A B} (m : M T A) (k : A -> M T B) h a h' :
  m h = Some (a, h') -> bind m k h = k a h'.
Proof. intros H. unfold bind. by rewrite H. Qed.

(** One field read or write of the receiver, whose cell is known either
    from a hypothesis or from the write just before. *)
Ltac heap_step :=
  first
    [ erewrite (bind_run (rd _ _))
        by (apply rd_run; first [eassumption | apply lookup_insert_eq])
    | erewrite (bind_run (wr _ _ _))
        by (apply wr_run; first [eassumption | apply lookup_insert_eq]) ];
  rewrite ?insert_insert_eq.

Ltac heap_run := repeat heap_step; cbv [ret]; simpl.

(** ** Floating-point facts *)

Lemma fmul_comm prec emax a b : fmul prec emax a b = fmul prec emax b a.
Proof.
  unfold fmul.
  destruct a as [sa|sa| |sa m1 e1], b as [sb|sb| |sb m2 e2]; simpl;
    rewrite ?(xorb_comm sa sb); try reflexivity.
  by rewrite (Pos.mul_comm m1 m2), (Z.add_comm e1 e2).
Qed.

Lemma fadd_comm prec emax a b : fadd prec emax a b = fadd prec emax b a.
Proof.
  unfold fadd.
  destruct a as [sa|sa| |sa m1 e1], b as [sb|sb| |sb m2 e2]; simpl;
    try reflexivity; try (by destruct sa, sb).
  by rewrite (Z.min_comm e1 e2), Z.add_comm.
Qed.

(** ** What every table entry does *)

Section AlgebraFacts.
Variables prec emax : Z.

Lemma done_run {T A} (m : M T A) h a h' :
  m h = Some (a, h') -> done m h = Some (Done a, h').
Proof. intros H. unfold done, bind, ret. by rewrite H. Qed.

(** The methods without a division, entry by entry. *)
Lemma vector_self_plain op (h : heap Vector2D) p v :
  h !! p = Some v ->
  match op with
  | Vneg => v_neg_s p h
  | Vvadd w => v_vadd_s prec emax p w h
  | Vvsub w => v_vsub_s prec emax p w h
  | Vvmul w => v_vmul_s prec emax p w h
  | Vsadd s => v_sadd_s prec emax p s h
  | Vssub s => v_ssub_s prec emax p s h
  | Vsmul s => v_smul_s prec emax p s h
  | Vmatmul m => v_matmul_s prec emax p m h
  | Vrot => rot_s p h
  | Vvdiv _ | Vsdiv _ => Some (p, <[p := vector_spec prec emax op v]> h)
  end
  = Some (p, <[p := vector_spec prec emax op v]> h).
Proof.
  intros H.
  destruct op; cbn [vector_spec]; try reflexivity;
    unfold v_neg_s, v_vadd_s, v_vsub_s, v_vmul_s, v_sadd_s,
      v_ssub_s, v_smul_s, v_matmul_s, rot_s;
    heap_run; reflexivity.
Qed.

(** The copying scalar subtraction returns what scalar addition does. *)
Lemma vector_copy_plain op (h : heap Vector2D) p v :
  h !! p = Some v ->
  match op with
  | Vneg => v_neg_c p h
  | Vvadd w => v_vadd_c prec emax p w h
  | Vvsub w => v_vsub_c prec emax p w h
  | Vvmul w => v_vmul_c prec emax p w h
  | Vsadd s => v_sadd_c prec emax p s h
  | Vssub s => v_ssub_c prec emax p s h
  | Vsmul s => v_smul_c prec emax p s h
  | Vmatmul m => v_matmul_c prec emax p m h
  | Vrot => rot_c p h
  | Vvdiv _ | Vsdiv _ => Some (vector_spec prec emax op v, h)
  end
  = Some (match op with
          | Vssub s => vector_spec prec emax (Vsadd s) v
          | _ => vector_spec prec emax op v
          end, h).
Proof.
  intros H.
  destruct op; cbn [vector_spec]; try reflexivity;
    unfold v_neg_c, v_vadd_c, v_vsub_c, v_vmul_c, v_sadd_c,
      v_ssub_c, v_smul_c, v_matmul_c, rot_c;
    heap_run; reflexivity.
Qed.

Lemma matrix_self_plain op (h : heap Matrix2x2) p a :
  h !! p = Some a ->
  match op with
  | Mneg => m_neg_s p h
  | Mmadd m => m_madd_s prec emax p m h
  | Mmsub m => m_msub_s prec emax p m h
  | Mmmul m => m_mmul_s prec emax p m h
  | Msadd s => m_sadd_s prec emax p s h
  | Mssub s => m_ssub_s prec emax p s h
  | Msmul s => m_smul_s prec emax p s h
  | Mmatmul m => m_matmul_s prec emax p m h
  | MT => m_transpose_s p h
  | Mmdiv _ | Msdiv _ => Some (p, <[p := matrix_spec prec emax op a]> h)
  end
  = Some (p, <[p := matrix_spec prec emax op a]> h).
Proof.
  intros H.
  destruct op; cbn [matrix_spec]; try reflexivity;
    unfold m_neg_s, m_madd_s, m_msub_s, m_mmul_s, m_sadd_s,
      m_ssub_s, m_smul_s, m_matmul_s, m_transpose_s;
    heap_run; reflexivity.
Qed.

Lemma matrix_copy_plain op (h : heap Matrix2x2) p a :
  h !! p = Some a ->
  match op with
  | Mneg => m_neg_c p h
  | Mmadd m => m_madd_c prec emax p m h
  | Mmsub m => m_msub_c prec emax p m h
  | Mmmul m => m_mmul_c prec emax p m h
  | Msadd s => m_sadd_c prec emax p s h
  | Mssub s => m_ssub_c prec emax p s h
  | Msmul s => m_smul_c prec emax p s h
  | Mmatmul m => m_matmul_c prec emax p m h
  | MT => m_transpose_c p h
  | Mmdiv _ | Msdiv _ => Some (matrix_spec prec emax op a, h)
  end
  = Some (matrix_spec prec emax op a, h).
Proof.
  intros H.
  destruct op; cbn [matrix_spec]; try reflexivity;
    unfold m_neg_c, m_madd_c, m_msub_c, m_mmul_c, m_sadd_c,
      m_ssub_c, m_smul_c, m_matmul_c, m_transpose_c;
    heap_run; reflexivity.
Qed.

(** The methods that divide, when no divisor is zero. *)
Ltac div_run :=
  repeat first [ heap_step | progress cbv iota ]; cbv [ret]; simpl.

Lemma v_vdiv_s_run (h : heap Vector2D) p v w :
  h !! p = Some v -> is_zero (vx w) = false -> is_zero (vy w) = false ->
  v_vdiv_s prec emax p w h
  = Some (Done p, <[p := vector_spec prec emax (Vvdiv w) v]> h).
Proof.
  intros H Hx Hy. unfold v_vdiv_s. rewrite Hx, Hy. div_run. reflexivity.
Qed.

Lemma v_sdiv_s_run (h : heap Vector2D) p v s :
  h !! p = Some v -> is_zero s = false ->
  v_sdiv_s prec emax p s h
  = Some (Done p, <[p := vector_spec prec emax (Vsdiv s) v]> h).
Proof. intros H Hs. unfold v_sdiv_s. rewrite Hs. div_run. reflexivity. Qed.

Lemma v_vdiv_c_run (h : heap Vector2D) p v w :
  h !! p = Some v -> is_zero (vx w) = false -> is_zero (vy w) = false ->
  v_vdiv_c prec emax p w h
  = Some (Done (vector_spec prec emax (Vvdiv w) v), h).
Proof.
  intros H Hx Hy. unfold v_vdiv_c. rewrite Hx, Hy. div_run. reflexivity.
Qed.

Lemma v_sdiv_c_run (h : heap Vector2D) p v s :
  h !! p = Some v -> is_zero s = false ->
  v_sdiv_c prec emax p s h
  = Some (Done (vector_spec prec emax (Vsdiv s) v), h).
Proof. intros H Hs. unfold v_sdiv_c. rewrite Hs. div_run. reflexivity. Qed.

Lemma m_mdiv_s_run (h : heap Matrix2x2) p a m :
  h !! p = Some a ->
  is_zero (ma m) = false -> is_zero (mb m) = false ->
  is_zero (mc m) = false -> is_zero (md m) = false ->
  m_mdiv_s prec emax p m h
  = Some (Done p, <[p := matrix_spec prec emax (Mmdiv m) a]> h).
Proof.
  intros H Ha Hb Hc Hd. unfold m_mdiv_s. rewrite Ha, Hb, Hc, Hd.
  div_run. reflexivity.
Qed.

Lemma m_sdiv_s_run (h : heap Matrix2x2) p a s :
  h !! p = Some a -> is_zero s = false ->
  m_sdiv_s prec emax p s h
  = Some (Done p, <[p := matrix_spec prec emax (Msdiv s) a]> h).
Proof. intros H Hs. unfold m_sdiv_s. rewrite Hs. div_run. reflexivity. Qed.

Lemma m_mdiv_c_run (h : heap Matrix2x2) p a m :
  h !! p = Some a ->
  is_zero (ma m) = false -> is_zero (mb m) = false ->
  is_zero (mc m) = false -> is_zero (md m) = false ->
  m_mdiv_c prec emax p m h
  = Some (Done (matrix_spec prec emax (Mmdiv m) a), h).
Proof.
  intros H Ha Hb Hc Hd. unfold m_mdiv_c. rewrite Ha, Hb, Hc, Hd.
  div_run. reflexivity.
Qed.

Lemma m_sdiv_c_run (h : heap Matrix2x2) p a s :
  h !! p = Some a -> is_zero s = false ->
  m_sdiv_c prec emax p s h
  = Some (Done (matrix_spec prec emax (Msdiv s) a), h).
Proof. intros H Hs. unfold m_sdiv_c. rewrite Hs. div_run. reflexivity. Qed.

(** Calls through the tables that do not raise. *)
Lemma vector_self_run op (h : heap Vector2D) p v :
  h !! p = Some v -> vector_op_raises op = false ->
  vector_self prec emax op p h
  = Some (Done p, <[p := vector_spec prec emax op v]> h).
Proof.
  intros H Hz. pose proof (vector_self_plain op h p v H) as Hp.
  destruct op; simpl in Hz; try (apply done_run; exact Hp).
  - apply orb_false_iff in Hz as [Hx Hy]. by apply v_vdiv_s_run.
  - by apply v_sdiv_s_run.
Qed.

Lemma vector_copy_run op (h : heap Vector2D) p v :
  h !! p = Some v -> vector_op_raises op = false ->
  vector_copy prec emax op p h
  = Some (Done (match op with
                | Vssub s => vector_spec prec emax (Vsadd s) v
                | _ => vector_spec prec emax op v
                end), h).
Proof.
  intros H Hz. pose proof (vector_copy_plain op h p v H) as Hp.
  destruct op; simpl in Hz; try (apply done_run; exact Hp).
  - apply orb_false_iff in Hz as [Hx Hy]. by apply v_vdiv_c_run.
  - by apply v_sdiv_c_run.
Qed.

Lemma matrix_self_run op (h : heap Matrix2x2) p a :
  h !! p = Some a -> matrix_op_raises op = false ->
  matrix_self prec emax op p h
  = Some (Done p, <[p := matrix_spec prec emax op a]> h).
Proof.
  intros H Hz. pose proof (matrix_self_plain op h p a H) as Hp.
  destruct op; simpl in Hz; try (apply done_run; exact Hp).
  - apply orb_false_iff in Hz as [Hz Hd].
    apply orb_false_iff in Hz as [Hz Hc].
    apply orb_false_iff in Hz as [Ha Hb]. by apply m_mdiv_s_run.
  - by apply m_sdiv_s_run.
Qed.

Lemma matrix_copy_run op (h : heap Matrix2x2) p a :
  h !! p = Some a -> matrix_op_raises op = false ->
  matrix_copy prec emax op p h
  = Some (Done (matrix_spec prec emax op a), h).
Proof.
  intros H Hz. pose proof (matrix_copy_plain op h p a H) as Hp.
  destruct op; simpl in Hz; try (apply done_run; exact Hp).
  - apply orb_false_iff in Hz as [Hz Hd].
    apply orb_false_iff in Hz as [Hz Hc].
    apply orb_false_iff in Hz as [Ha Hb]. by apply m_mdiv_c_run.
  - by apply m_sdiv_c_run.
Qed.
End AlgebraFacts.

(** ** Vector2D and Matrix2x2 *)

(** C1: scalar subtraction broadcasts the scalar to both components.  The
    mutating variant leaves [(x-s, y-s)] in the receiver and returns the
    receiver; the copying variant returns [(x+s, y+s)] and not
    [(x-s, y-s)]. *)
Theorem v_ssub_broadcast prec emax (h : heap Vector2D) p x y s :
  h !! p = Some (MkVector2D x y) ->
  v_ssub_s prec emax p s h
  = Some (p, <[p := MkVector2D (fsub prec emax x s) (fsub prec emax y s)]> h)
  /\ v_ssub_c prec emax p s h
     = Some (MkVector2D (fadd prec emax x s) (fadd prec emax y s), h).
Proof.
  intros H. split.
  - exact (vector_self_plain prec emax (Vssub s) h p _ H).
  - exact (vector_copy_plain prec emax (Vssub s) h p _ H).
Qed.

Lemma v_ssub_broadcast_witness :
  vec_heap 5 7 !! 1 = Some (MkVector2D (F64 5) (F64 7)) /\
  (v_ssub_s 53 1024 1 (F64 2) (vec_heap 5 7)
   = Some (1, <[1 := MkVector2D (fsub 53 1024 (F64 5) (F64 2))
                                (fsub 53 1024 (F64 7) (F64 2))]> (vec_heap 5 7))
   /\ v_ssub_c 53 1024 1 (F64 2) (vec_heap 5 7)
      = Some (MkVector2D (fadd 53 1024 (F64 5) (F64 2))
                         (fadd 53 1024 (F64 7) (F64 2)), vec_heap 5 7)).
Proof.
  split; [reflexivity |].
  apply (v_ssub_broadcast 53 1024 (vec_heap 5 7) 1 (F64 5) (F64 7) (F64 2)).
  reflexivity.
Defined.

(** On doubles, [(5,7)] less [2] is [(3,5)] through [self] and [(7,9)]
    through [copy]. *)
Example v_ssub_5_7_2 :
  v_ssub_s 53 1024 1 (F64 2) (vec_heap 5 7) = Some (1, vec_heap 3 5)
  /\ v_ssub_c 53 1024 1 (F64 2) (vec_heap 5 7)
     = Some (MkVector2D (F64 7) (F64 9), vec_heap 5 7).
Proof. split; vm_compute; reflexivity. Qed.

(** C5: through either table and whatever the entry, called with an operand
    whose divisor components are not zero (any operand, for the entries that
    do not divide): the mutating variant writes the result into the
    receiver's own cell, touches no other cell and returns the receiver's
    pointer; the copying variant returns a value and leaves the store, the
    receiver included, as it was.  Negation yields [(-x, -y)] in both. *)
Theorem self_mutates_copy_preserves prec emax
    (hv : heap Vector2D) (hm : heap Matrix2x2) p q v a vop mop :
  hv !! p = Some v -> hm !! q = Some a ->
  vector_op_raises vop = false -> matrix_op_raises mop = false ->
  vector_self prec emax vop p hv
  = Some (Done p, <[p := vector_spec prec emax vop v]> hv)
  /\ (exists r, vector_copy prec emax vop p hv = Some (Done r, hv))
  /\ matrix_self prec emax mop q hm
     = Some (Done q, <[q := matrix_spec prec emax mop a]> hm)
  /\ (exists r, matrix_copy prec emax mop q hm = Some (Done r, hm))
  /\ v_neg_c p hv = Some (MkVector2D (fneg (vx v)) (fneg (vy v)), hv)
  /\ v_neg_s p hv
     = Some (p, <[p := MkVector2D (fneg (vx v)) (fneg (vy v))]> hv).
Proof.
  intros Hv Ha Hvz Hmz. repeat split.
  - by apply vector_self_run.
  - eexists. by apply vector_copy_run.
  - by apply matrix_self_run.
  - eexists. by apply matrix_copy_run.
  - exact (vector_copy_plain prec emax Vneg hv p v Hv).
  - exact (vector_self_plain prec emax Vneg hv p v Hv).
Qed.

Lemma self_mutates_copy_preserves_witness :
  vec_heap 6 4 !! 1 = Some (MkVector2D (F64 6) (F64 4)) /\
  mat_heap 2 4 6 8 !! 1
  = Some (MkMatrix2x2 (F64 2) (F64 4) (F64 6) (F64 8)) /\
  vector_op_raises (Vsdiv (F64 2)) = false /\
  matrix_op_raises (Msdiv (F64 2)) = false /\
  vector_self 53 1024 (Vsdiv (F64 2)) 1 (vec_heap 6 4)
  = Some (Done 1, <[1 := vector_spec 53 1024 (Vsdiv (F64 2))
                           (MkVector2D (F64 6) (F64 4))]> (vec_heap 6 4)) /\
  v_neg_c 1 (vec_heap 6 4)
  = Some (MkVector2D (fneg (F64 6)) (fneg (F64 4)), vec_heap 6 4) /\
  v_neg_s 1 (vec_heap 6 4)
  = Some (1, <[1 := MkVector2D (fneg (F64 6)) (fneg (F64 4))]> (vec_heap 6 4)).
Proof.
  split; [reflexivity |]. split; [reflexivity |].
  split; [reflexivity |]. split; [reflexivity |].
  pose proof (self_mutates_copy_preserves 53 1024 (vec_heap 6 4)
                (mat_heap 2 4 6 8) 1 1 _ _ (Vsdiv (F64 2)) (Msdiv (F64 2))
                eq_refl eq_refl eq_refl eq_refl) as H.
  exact (conj (proj1 H)
           (conj (proj1 (proj2 (proj2 (proj2 (proj2 H)))))
                 (proj2 (proj2 (proj2 (proj2 (proj2 H))))))).
Defined.

(** On doubles, [(6,4)] divided in place by 2 is [(3,2)]. *)
Example vector_self_sdiv_6_4_2 :
  vector_self 53 1024 (Vsdiv (F64 2)) 1 (vec_heap 6 4)
  = Some (Done 1, vec_heap 3 2).
Proof. vm_compute. reflexivity. Qed.

(** C5 without the restriction fails: dividing [(6,4)] by a zero scalar, the
    mutating variant raises and returns no pointer, and the copying variant
    raises and returns no value. *)
Lemma self_sdiv_by_zero_returns_nothing :
  vector_self 53 1024 (Vsdiv (F64 0)) 1 (vec_heap 6 4)
  = Some (Raised float_division, vec_heap 6 4)
  /\ ~ (exists hv',
          vector_self 53 1024 (Vsdiv (F64 0)) 1 (vec_heap 6 4)
          = Some (Done 1, hv'))
  /\ ~ (exists r,
          vector_copy 53 1024 (Vsdiv (F64 0)) 1 (vec_heap 6 4)
          = Some (Done r, vec_heap 6 4)).
Proof.
  assert (vector_self 53 1024 (Vsdiv (F64 0)) 1 (vec_heap 6 4)
          = Some (Raised float_division, vec_heap 6 4)) as Hs
    by (vm_compute; reflexivity).
  assert (vector_copy 53 1024 (Vsdiv (F64 0)) 1 (vec_heap 6 4)
          = Some (Raised float_division, vec_heap 6 4)) as Hc
    by (vm_compute; reflexivity).
  split; [exact Hs |]. split.
  - intros [hv' H]. rewrite Hs in H. discriminate.
  - intros [r H]. rewrite Hc in H. discriminate.
Qed.

(** C6: [matmul] is the matrix product
    [(a*a'+b*c', a*b'+b*d', c*a'+d*c', c*b'+d*d')] in both variants. *)
Theorem m_matmul_is_matrix_product prec emax (h : heap Matrix2x2) p
    a b c d a' b' c' d' :
  h !! p = Some (MkMatrix2x2 a b c d) ->
  m_matmul_s prec emax p (MkMatrix2x2 a' b' c' d') h
  = Some (p, <[p := MkMatrix2x2
        (fadd prec emax (fmul prec emax a a') (fmul prec emax b c'))
        (fadd prec emax (fmul prec emax a b') (fmul prec emax b d'))
        (fadd prec emax (fmul prec emax c a') (fmul prec emax d c'))
        (fadd prec emax (fmul prec emax c b') (fmul prec emax d d'))]> h)
  /\ m_matmul_c prec emax p (MkMatrix2x2 a' b' c' d') h
     = Some (MkMatrix2x2
        (fadd prec emax (fmul prec emax a a') (fmul prec emax b c'))
        (fadd prec emax (fmul prec emax a b') (fmul prec emax b d'))
        (fadd prec emax (fmul prec emax c a') (fmul prec emax d c'))
        (fadd prec emax (fmul prec emax c b') (fmul prec emax d d')), h).
Proof.
  intros H. split.
  - exact (matrix_self_plain prec emax (Mmatmul (MkMatrix2x2 a' b' c' d'))
             h p _ H).
  - exact (matrix_copy_plain prec emax (Mmatmul (MkMatrix2x2 a' b' c' d'))
             h p _ H).
Qed.

Lemma m_matmul_is_matrix_product_witness :
  mat_heap 1 2 3 4 !! 1
  = Some (MkMatrix2x2 (F64 1) (F64 2) (F64 3) (F64 4)) /\
  m_matmul_s 53 1024 1 (MkMatrix2x2 (F64 5) (F64 6) (F64 7) (F64 8))
    (mat_heap 1 2 3 4)
  = Some (1, mat_heap 19 22 43 50) /\
  m_matmul_c 53 1024 1 (MkMatrix2x2 (F64 5) (F64 6) (F64 7) (F64 8))
    (mat_heap 1 2 3 4)
  = Some (MkMatrix2x2 (F64 19) (F64 22) (F64 43) (F64 50), mat_heap 1 2 3 4).
Proof.
  split; [reflexivity |].
  destruct (m_matmul_is_matrix_product 53 1024 (mat_heap 1 2 3 4) 1
              (F64 1) (F64 2) (F64 3) (F64 4)
              (F64 5) (F64 6) (F64 7) (F64 8) eq_refl) as [Hs Hc].
  split; [rewrite Hs | rewrite Hc]; vm_compute; reflexivity.
Defined.

(** The element-wise product of the same two matrices is another matrix. *)
Example m_mmul_differs_from_matmul :
  m_mmul_c 53 1024 1 (MkMatrix2x2 (F64 5) (F64 6) (F64 7) (F64 8))
    (mat_heap 1 2 3 4)
  = Some (MkMatrix2x2 (F64 5) (F64 12) (F64 21) (F64 32), mat_heap 1 2 3 4).
Proof. vm_compute. reflexivity. Qed.

(** C8: transposing twice gives back the very same matrix.  Chaining the
    mutating variant restores the store exactly.  The copying variant returns
    the matrix with [b] and [c] exchanged and, applied to any cell [q] that
    holds this result, returns the original components. *)
Theorem m_transpose_involutive (h : heap Matrix2x2) p q a :
  h !! p = Some a ->
  bind (m_transpose_s p) m_transpose_s h = Some (p, h)
  /\ exists t,
      m_transpose_c p h = Some (t, h)
      /\ t = MkMatrix2x2 (ma a) (mc a) (mb a) (md a)
      /\ m_transpose_c q (<[q := t]> h) = Some (a, <[q := t]> h).
Proof.
  intros Ha. split.
  - unfold bind at 1, m_transpose_s at 1. heap_run.
    unfold m_transpose_s. heap_run.
    destruct a as [a b c d]; simpl. by rewrite (insert_id h p).
  - exists (MkMatrix2x2 (ma a) (mc a) (mb a) (md a)). repeat split.
    + unfold m_transpose_c. heap_run. reflexivity.
    + unfold m_transpose_c. heap_run. by destruct a.
Qed.

Lemma m_transpose_involutive_witness :
  mat_heap 1 2 3 4 !! 1 = Some (MkMatrix2x2 (F64 1) (F64 2) (F64 3) (F64 4))
  /\ bind (m_transpose_s 1) m_transpose_s (mat_heap 1 2 3 4)
     = Some (1, mat_heap 1 2 3 4)
  /\ exists t,
      m_transpose_c 1 (mat_heap 1 2 3 4) = Some (t, mat_heap 1 2 3 4)
      /\ t = MkMatrix2x2 (F64 1) (F64 3) (F64 2) (F64 4)
      /\ m_transpose_c 2 (<[2 := t]> (mat_heap 1 2 3 4))
         = Some (MkMatrix2x2 (F64 1) (F64 2) (F64 3) (F64 4),
                 <[2 := t]> (mat_heap 1 2 3 4)).
Proof.
  split; [reflexivity |].
  exact (m_transpose_involutive (mat_heap 1 2 3 4) 1 2
           (MkMatrix2x2 (F64 1) (F64 2) (F64 3) (F64 4)) eq_refl).
Defined.

Lemma dot_run prec emax (h : heap Vector2D) p v w :
  h !! p = Some v ->
  dot prec emax p w h
  = Some (fadd prec emax (fmul prec emax (vx v) (vx w))
                         (fmul prec emax (vy v) (vy w)), h).
Proof. intros H. unfold dot. heap_run. reflexivity. Qed.

Lemma dot_swap prec emax (h : heap Vector2D) p q v w :
  h !! p = Some v -> h !! q = Some w ->
  dot prec emax p w h = dot prec emax q v h.
Proof.
  intros Hv Hw. rewrite (dot_run _ _ h p v w Hv), (dot_run _ _ h q w v Hw).
  by rewrite (fmul_comm prec emax (vx v)), (fmul_comm prec emax (vy v)).
Qed.

(** C9: [dot] returns [x1*x2 + y1*y2] and leaves the store alone; with the
    two vectors exchanged it returns the same value. *)
Theorem dot_commutative prec emax (h : heap Vector2D) p q v w :
  h !! p = Some v -> h !! q = Some w ->
  dot prec emax p w h
  = Some (fadd prec emax (fmul prec emax (vx v) (vx w))
                         (fmul prec emax (vy v) (vy w)), h)
  /\ dot prec emax p w h = dot prec emax q v h.
Proof.
  intros Hv Hw. split; [by apply dot_run | by apply dot_swap].
Qed.

Lemma dot_commutative_witness :
  two_vec_heap !! 1 = Some (MkVector2D (F64 1) (F64 2)) /\
  two_vec_heap !! 2 = Some (MkVector2D (F64 3) (F64 4)) /\
  dot 53 1024 1 (MkVector2D (F64 3) (F64 4)) two_vec_heap
  = Some (F64 11, two_vec_heap) /\
  dot 53 1024 1 (MkVector2D (F64 3) (F64 4)) two_vec_heap
  = dot 53 1024 2 (MkVector2D (F64 1) (F64 2)) two_vec_heap.
Proof.
  split; [reflexivity |]. split; [reflexivity |].
  destruct (dot_commutative 53 1024 two_vec_heap 1 2 _ _ eq_refl eq_refl)
    as [Hd Hc].
  split; [| exact Hc].
  rewrite Hd. vm_compute. reflexivity.
Defined.

(** The two results are the same value; C's [==] on them is true unless
    that value is NaN, which compares unequal to itself. *)
Lemma dot_results_compare prec emax (h : heap Vector2D) p q v w r :
  h !! p = Some v -> h !! q = Some w ->
  dot prec emax p w h = Some (r, h) ->
  dot prec emax q v h = Some (r, h) /\ (feq r r = false <-> r = S754_nan).
Proof.
  intros Hv Hw Hr. rewrite <- (dot_swap prec emax h p q v w Hv Hw).
  split; [exact Hr |].
  unfold feq, SFeqb, SFcompare.
  destruct r as [[]|[]| |[] m e]; simpl; try (split; congruence);
    rewrite ?Z.compare_refl, ?Pos.compare_cont_refl; simpl;
    split; congruence.
Qed.

(** C10: for every entry but the vector scalar subtraction, called with an
    operand whose divisor components are not zero, the value the copying
    variant returns is the value the mutating variant leaves in the
    receiver. *)
Theorem copy_agrees_with_self prec emax
    (hv : heap Vector2D) (hm : heap Matrix2x2) p q v a vop mop :
  hv !! p = Some v -> hm !! q = Some a ->
  is_Vssub vop = false ->
  vector_op_raises vop = false -> matrix_op_raises mop = false ->
  (exists r, vector_copy prec emax vop p hv = Some (Done r, hv)
             /\ vector_self prec emax vop p hv
                = Some (Done p, <[p := r]> hv))
  /\ (exists r, matrix_copy prec emax mop q hm = Some (Done r, hm)
                /\ matrix_self prec emax mop q hm
                   = Some (Done q, <[q := r]> hm)).
Proof.
  intros Hv Ha Hop Hvz Hmz. split.
  - exists (vector_spec prec emax vop v). split.
    + rewrite (vector_copy_run prec emax vop hv p v Hv Hvz).
      by destruct vop.
    + by apply vector_self_run.
  - exists (matrix_spec prec emax mop a). split.
    + by apply matrix_copy_run.
    + by apply matrix_self_run.
Qed.

Lemma copy_agrees_with_self_witness :
  vec_heap 6 4 !! 1 = Some (MkVector2D (F64 6) (F64 4)) /\
  mat_heap 2 4 6 8 !! 1
  = Some (MkMatrix2x2 (F64 2) (F64 4) (F64 6) (F64 8)) /\
  is_Vssub (Vvdiv (MkVector2D (F64 3) (F64 2))) = false /\
  vector_op_raises (Vvdiv (MkVector2D (F64 3) (F64 2))) = false /\
  matrix_op_raises (Msdiv (F64 2)) = false /\
  (exists r,
      vector_copy 53 1024 (Vvdiv (MkVector2D (F64 3) (F64 2)))
        1 (vec_heap 6 4) = Some (Done r, vec_heap 6 4)
      /\ vector_self 53 1024 (Vvdiv (MkVector2D (F64 3) (F64 2)))
           1 (vec_heap 6 4) = Some (Done 1, <[1 := r]> (vec_heap 6 4))).
Proof.
  split; [reflexivity |]. split; [reflexivity |]. split; [reflexivity |].
  split; [reflexivity |]. split; [reflexivity |].
  exact (proj1 (copy_agrees_with_self 53 1024 (vec_heap 6 4) (mat_heap 2 4 6 8)
                  1 1 _ _ (Vvdiv (MkVector2D (F64 3) (F64 2)))
                  (Msdiv (F64 2)) eq_refl eq_refl eq_refl eq_refl eq_refl)).
Defined.

(** C10 without the restriction fails: dividing [(6,4)] by [(2,0)], the
    mutating variant leaves [(3,4)] in the receiver and raises, and the
    copying variant raises and returns no value to compare with. *)
Lemma copy_vdiv_by_zero_returns_no_value :
  vector_self 53 1024 (Vvdiv (MkVector2D (F64 2) (F64 0))) 1 (vec_heap 6 4)
  = Some (Raised float_division, vec_heap 3 4)
  /\ vector_copy 53 1024 (Vvdiv (MkVector2D (F64 2) (F64 0))) 1 (vec_heap 6 4)
     = Some (Raised float_division, vec_heap 6 4)
  /\ ~ (exists r,
          vector_copy 53 1024 (Vvdiv (MkVector2D (F64 2) (F64 0))) 1
            (vec_heap 6 4) = Some (Done r, vec_heap 6 4)
          /\ vector_self 53 1024 (Vvdiv (MkVector2D (F64 2) (F64 0))) 1
               (vec_heap 6 4) = Some (Done 1, <[1 := r]> (vec_heap 6 4))).
Proof.
  assert (vector_copy 53 1024 (Vvdiv (MkVector2D (F64 2) (F64 0))) 1
            (vec_heap 6 4) = Some (Raised float_division, vec_heap 6 4)) as Hc
    by (vm_compute; reflexivity).
  split; [vm_compute; reflexivity |]. split; [exact Hc |].
  intros (r & H & _). rewrite Hc in H. discriminate.
Qed.

(** The excepted entry: on [(5,7)] and [2] the copy holds [(7,9)] where the
    receiver of the mutating call holds [(3,5)]. *)
Example vector_ssub_variants_disagree :
  vector_copy 53 1024 (Vssub (F64 2)) 1 (vec_heap 5 7)
  = Some (Done (MkVector2D (F64 7) (F64 9)), vec_heap 5 7)
  /\ vector_self 53 1024 (Vssub (F64 2)) 1 (vec_heap 5 7)
     = Some (Done 1, vec_heap 3 5)
  /\ F64 7 <> F64 3.
Proof. repeat split; try (vm_compute; reflexivity). discriminate. Qed.

(** ** IArray and FArray *)

Lemma buf_get_lookup {A} (buf : list A) i :
  0 <= i -> buf_get buf i = buf !! Z.to_nat i.
Proof. intros Hi. unfold buf_get. by rewrite (proj2 (Z.ltb_ge i 0) Hi). Qed.

Lemma buf_set_inside {A} (buf : list A) i v :
  0 <= i < Z.of_nat (length buf) ->
  buf_set buf i v = Some (<[Z.to_nat i := v]> buf).
Proof.
  intros [Hlo Hhi]. unfold buf_set.
  by rewrite (proj2 (Z.leb_le 0 i) Hlo), (proj2 (Z.ltb_lt _ _) Hhi).
Qed.

Lemma buf_get_set_eq {A} (buf : list A) i v :
  0 <= i < Z.of_nat (length buf) ->
  buf_get (<[Z.to_nat i := v]> buf) i = Some v.
Proof.
  intros Hi. rewrite buf_get_lookup by lia.
  apply list_lookup_insert_eq. lia.
Qed.

Lemma buf_get_set_ne {A} (buf : list A) i k v :
  0 <= i -> k <> i ->
  buf_get (<[Z.to_nat i := v]> buf) k = buf_get buf k.
Proof.
  intros Hi Hne. unfold buf_get. destruct (k <? 0) eqn:Hk; [done |].
  apply Z.ltb_ge in Hk. apply list_lookup_insert_ne. lia.
Qed.

(** Inside the shape, the flat offset falls inside a [rows*cols] buffer. *)
Lemma offset_inside shape index n :
  0 <= shape.1 -> 0 <= shape.2 -> n = shape.1 * shape.2 ->
  in_bounds shape index -> 0 <= offset shape index < n.
Proof.
  destruct shape as [rows cols], index as [i j]; unfold in_bounds, offset;
    simpl. intros Hr Hc -> [Hi Hj]. nia.
Qed.

(** Distinct in-bounds indices have distinct offsets. *)
Lemma offset_inj shape index index' :
  in_bounds shape index -> in_bounds shape index' ->
  offset shape index = offset shape index' -> index = index'.
Proof.
  destruct shape as [rows cols], index as [i j], index' as [i' j'];
    unfold in_bounds, offset; simpl. intros [Hi Hj] [Hi' Hj'] Heq.
  assert (i = i') by nia. subst i'. f_equal. lia.
Qed.

(** The check raises exactly when an index is strictly greater than the
    extent of its dimension, and the error carries the shape. *)
Lemma iarray_valid_indices_raises (self : IArray) index :
  (index.1 > (iarray_shape self).1 \/ index.2 > (iarray_shape self).2 ->
   exists e, iarray_valid_indices self index = inl e
             /\ err_shape e = iarray_shape self)
  /\ (index.1 <= (iarray_shape self).1 /\ index.2 <= (iarray_shape self).2 ->
      iarray_valid_indices self index = inr false).
Proof.
  unfold iarray_valid_indices. split.
  - intros H.
    assert ((index.1 >? (iarray_shape self).1)
            || (index.2 >? (iarray_shape self).2) = true) as ->.
    { apply orb_true_iff. rewrite !Z.gtb_ltb, !Z.ltb_lt. lia. }
    eexists. split; reflexivity.
  - intros H.
    assert ((index.1 >? (iarray_shape self).1)
            || (index.2 >? (iarray_shape self).2) = false) as ->.
    { apply orb_false_iff. rewrite !Z.gtb_ltb, !Z.ltb_ge. lia. }
    reflexivity.
Qed.

Lemma farray_valid_indices_raises (self : FArray) index :
  (index.1 > (farray_shape self).1 \/ index.2 > (farray_shape self).2 ->
   exists e, farray_valid_indices self index = inl e
             /\ err_shape e = farray_shape self)
  /\ (index.1 <= (farray_shape self).1 /\ index.2 <= (farray_shape self).2 ->
      farray_valid_indices self index = inr false).
Proof.
  unfold farray_valid_indices. split.
  - intros H.
    assert ((index.1 >? (farray_shape self).1)
            || (index.2 >? (farray_shape self).2) = true) as ->.
    { apply orb_true_iff. rewrite !Z.gtb_ltb, !Z.ltb_lt. lia. }
    eexists. split; reflexivity.
  - intros H.
    assert ((index.1 >? (farray_shape self).1)
            || (index.2 >? (farray_shape self).2) = false) as ->.
    { apply orb_false_iff. rewrite !Z.gtb_ltb, !Z.ltb_ge. lia. }
    reflexivity.
Qed.

(** In-bounds accesses pass the check. *)
Lemma iarray_checked_in_bounds (self : IArray) index val :
  in_bounds (iarray_shape self) index ->
  iarray_get_checked self index = inr (iarray_get self index)
  /\ iarray_set_checked self index val = inr (iarray_set self index val).
Proof.
  intros [Hi Hj]. unfold iarray_get_checked, iarray_set_checked.
  rewrite (proj2 (iarray_valid_indices_raises self index)) by lia. done.
Qed.

(** C2: with the check switched on, [get((2,0))] and [set((2,0), v)] on a
    2x3 array raise no [IndexError]: the comparison is [>], so row 2 of 2
    rows passes, and the access goes to offset 6 of a 6-element buffer. *)
Theorem valid_indices_accepts_row_equal_rows :
  iarray_valid_indices iarray_2x3 (2, 0) = inr false
  /\ iarray_get_checked iarray_2x3 (2, 0) = inr None
  /\ iarray_set_checked iarray_2x3 (2, 0) 42 = inr None
  /\ farray_valid_indices farray_2x3 (2, 0) = inr false
  /\ farray_get_checked farray_2x3 (2, 0) = inr None
  /\ farray_set_checked farray_2x3 (2, 0) (F64 42) = inr None
  /\ offset (2, 3) (2, 0) = 6.
Proof. repeat split; vm_compute; reflexivity. Qed.

(** One row further the check does raise, with the shape in the error. *)
Example valid_indices_rejects_row_3 :
  iarray_get_checked iarray_2x3 (3, 0)
  = inl (MkIndexError "Index out of range for IArray with shape " (2, 3)).
Proof. reflexivity. Qed.

(** C4: in an array whose buffer has [rows*cols] elements, the in-bounds
    element [(i, j)] is the buffer element at [i*cols + j]; [set] writes that
    element and nothing else, and [get] reads the value back.  The same
    holds for the floating-point array. *)
Theorem flat_array_set_get (ia : IArray) (fa : FArray) i j (v : Z)
    (x : FLOAT_T) :
  iarray_wf ia -> in_bounds (iarray_shape ia) (i, j) ->
  farray_wf fa -> in_bounds (farray_shape fa) (i, j) ->
  (iarray_get ia (i, j)
   = iarray_arr ia !! Z.to_nat (i * (iarray_shape ia).2 + j)
   /\ is_Some (iarray_get ia (i, j))
   /\ exists ia',
       iarray_set ia (i, j) v = Some ia'
       /\ iarray_get ia' (i, j) = Some v
       /\ iarray_arr ia'
          = <[Z.to_nat (i * (iarray_shape ia).2 + j) := v]> (iarray_arr ia)
       /\ iarray_shape ia' = iarray_shape ia)
  /\ (farray_get fa (i, j)
      = farray_arr fa !! Z.to_nat (i * (farray_shape fa).2 + j)
      /\ is_Some (farray_get fa (i, j))
      /\ exists fa',
          farray_set fa (i, j) x = Some fa'
          /\ farray_get fa' (i, j) = Some x
          /\ farray_arr fa'
             = <[Z.to_nat (i * (farray_shape fa).2 + j) := x]> (farray_arr fa)
          /\ farray_shape fa' = farray_shape fa).
Proof.
  intros (Hr & Hc & Hlen) Hin (Hr' & Hc' & Hlen') Hin'.
  pose proof (offset_inside _ _ _ Hr Hc Hlen Hin) as Hoff.
  pose proof (offset_inside _ _ _ Hr' Hc' Hlen' Hin') as Hoff'.
  split.
  - unfold iarray_get, iarray_set.
    rewrite buf_get_lookup by lia. split; [reflexivity |]. split.
    { apply lookup_lt_is_Some. lia. }
    rewrite buf_set_inside by lia. eexists. split; [reflexivity |]. simpl.
    split; [apply buf_get_set_eq; lia | done].
  - unfold farray_get, farray_set.
    rewrite buf_get_lookup by lia. split; [reflexivity |]. split.
    { apply lookup_lt_is_Some. lia. }
    rewrite buf_set_inside by lia. eexists. split; [reflexivity |]. simpl.
    split; [apply buf_get_set_eq; lia | done].
Qed.

Lemma flat_array_set_get_witness :
  iarray_wf iarray_2x3 /\ in_bounds (2, 3) (1, 2) /\
  farray_wf farray_2x3 /\
  exists ia',
    iarray_set iarray_2x3 (1, 2) 42 = Some ia'
    /\ iarray_get ia' (1, 2) = Some 42
    /\ iarray_arr ia' = <[Z.to_nat (1 * 3 + 2) := 42]> (iarray_arr iarray_2x3)
    /\ iarray_shape ia' = (2, 3).
Proof.
  assert (iarray_wf iarray_2x3) as Hi.
  { unfold iarray_wf; simpl; lia. }
  assert (farray_wf farray_2x3) as Hf.
  { unfold farray_wf; simpl; lia. }
  assert (in_bounds (2, 3) (1, 2)) as Hb.
  { unfold in_bounds; simpl; lia. }
  split; [exact Hi |]. split; [exact Hb |]. split; [exact Hf |].
  exact (proj2 (proj2 (proj1
    (flat_array_set_get iarray_2x3 farray_2x3 1 2 42 (F64 42) Hi Hb Hf Hb)))).
Defined.

(** [set] leaves every other in-bounds element as it was. *)
Lemma iarray_set_get_other (ia ia' : IArray) index index' v :
  iarray_wf ia ->
  in_bounds (iarray_shape ia) index -> in_bounds (iarray_shape ia) index' ->
  index' <> index ->
  iarray_set ia index v = Some ia' ->
  iarray_get ia' index' = iarray_get ia index'.
Proof.
  intros (Hr & Hc & Hlen) Hin Hin' Hne.
  pose proof (offset_inside _ _ _ Hr Hc Hlen Hin) as Hoff.
  unfold iarray_set, iarray_get. rewrite buf_set_inside by lia. simpl.
  intros [= <-]. simpl. apply buf_get_set_ne; [lia |].
  intros Heq. apply Hne. by apply (offset_inj (iarray_shape ia)).
Qed.

Example iarray_2x3_set_1_2 :
  iarray_set iarray_2x3 (1, 2) 42 = Some (_IArray [0; 0; 0; 0; 0; 42] (2, 3))
  /\ iarray_get (_IArray [0; 0; 0; 0; 0; 42] (2, 3)) (1, 2) = Some 42.
Proof. split; reflexivity. Qed.

(** ** BitSet *)

(** [old == ((1 << r) | old)] tests bit [r] of [old]. *)
Lemma lor_bit_eqb old r :
  0 <= r -> (old =? Z.lor (Z.shiftl 1 r) old) = Z.testbit old r.
Proof.
  intros Hr. rewrite Z.shiftl_1_l.
  destruct (Z.testbit old r) eqn:Hbit.
  - apply Z.eqb_eq. symmetry. apply Z.bits_inj'. intros n Hn.
    rewrite Z.lor_spec, Z.pow2_bits_eqb by lia.
    destruct (Z.eqb_spec r n) as [<- | _]; [by rewrite Hbit | done].
  - apply Z.eqb_neq. intros Heq. rewrite Heq in Hbit.
    rewrite Z.lor_spec, Z.pow2_bits_eqb, Z.eqb_refl in Hbit by lia.
    discriminate.
Qed.

Lemma lor_bit_set old r : 0 <= r -> Z.testbit (Z.lor (Z.shiftl 1 r) old) r = true.
Proof.
  intros Hr.
  by rewrite Z.shiftl_1_l, Z.lor_spec, Z.pow2_bits_eqb, Z.eqb_refl by lia.
Qed.

Lemma lor_bit_other old r k :
  0 <= r -> k <> r ->
  Z.testbit (Z.lor (Z.shiftl 1 r) old) k = Z.testbit old k.
Proof.
  intros Hr Hne. rewrite Z.shiftl_1_l, Z.lor_spec, Z.pow2_bits_eqb by lia.
  destruct (Z.eqb_spec r k); [congruence | done].
Qed.

Section BitSetFacts.
Variable sizeof_INT_T : Z.
Hypothesis sizeof_pos : 0 < sizeof_INT_T.

Local Notation "'add'" := (bitset_add sizeof_INT_T).
Local Notation "'mem'" := (bitset_mem sizeof_INT_T).
Local Notation "'fits'" := (bitset_fits sizeof_INT_T).

(** The bit position inside the word is [val mod sizeof(INT_T)]. *)
Lemma rel_index_range val :
  0 <= val - val / sizeof_INT_T * sizeof_INT_T < sizeof_INT_T.
Proof.
  pose proof (Z.mod_pos_bound val sizeof_INT_T sizeof_pos) as Hm.
  rewrite Z.mod_eq in Hm by lia. lia.
Qed.

Lemma bitset_add_run (self : BitSet) val :
  fits self val ->
  add self val
  = Some (mem self val,
          MkBitSet
            (<[Z.to_nat (val / sizeof_INT_T) :=
                 Z.lor (Z.shiftl 1 (val - val / sizeof_INT_T * sizeof_INT_T))
                       (default 0 (bits self !! Z.to_nat (val / sizeof_INT_T)))]>
               (bits self))).
Proof.
  intros [Hval Hcap]. unfold bitset_add, bitset_mem.
  rewrite (proj2 (Z.ltb_ge val 0) Hval).
  assert (0 <= val / sizeof_INT_T) as Hidx by (apply Z.div_pos; lia).
  rewrite buf_get_lookup by lia.
  destruct (lookup_lt_is_Some_2 (bits self) (Z.to_nat (val / sizeof_INT_T)))
    as [old Hold]; [lia |].
  rewrite Hold. simpl.
  rewrite buf_set_inside by lia. simpl.
  rewrite buf_get_set_eq by lia. simpl.
  by rewrite lor_bit_eqb by apply rel_index_range.
Qed.

Lemma bitset_add_sets (self self' : BitSet) val r :
  fits self val -> add self val = Some (r, self') -> mem self' val = true.
Proof.
  intros Hfit. rewrite (bitset_add_run self val Hfit). intros [= _ <-].
  destruct Hfit as [Hval Hcap]. unfold bitset_mem. simpl.
  assert (0 <= val / sizeof_INT_T) as Hidx by (apply Z.div_pos; lia).
  rewrite buf_get_set_eq by lia.
  apply lor_bit_set, rel_index_range.
Qed.

Lemma bitset_add_frame (self self' : BitSet) val r w :
  fits self val -> add self val = Some (r, self') -> w <> val ->
  mem self' w = mem self w.
Proof.
  intros Hfit. rewrite (bitset_add_run self val Hfit). intros [= _ <-] Hne.
  destruct Hfit as [Hval Hcap]. unfold bitset_mem. simpl.
  assert (0 <= val / sizeof_INT_T) as Hidx by (apply Z.div_pos; lia).
  destruct (Z.eq_dec (w / sizeof_INT_T) (val / sizeof_INT_T)) as [Heq | Hw].
  - rewrite Heq, buf_get_set_eq, buf_get_lookup by lia.
    destruct (lookup_lt_is_Some_2 (bits self)
                (Z.to_nat (val / sizeof_INT_T))) as [old Hold]; [lia |].
    rewrite Hold. simpl. apply lor_bit_other; [apply rel_index_range |].
    pose proof (rel_index_range w). pose proof (rel_index_range val). nia.
  - by rewrite buf_get_set_ne by lia.
Qed.

Lemma bitset_add_length (self self' : BitSet) val r :
  fits self val -> add self val = Some (r, self') ->
  length (bits self') = length (bits self).
Proof.
  intros Hfit. rewrite (bitset_add_run self val Hfit). intros [= _ <-].
  simpl. apply length_insert.
Qed.

(** A new set holds nothing and has room for every value up to the
    capacity it was built for. *)
Lemma _BitSet_empty elements val : mem (_BitSet sizeof_INT_T elements) val = false.
Proof.
  unfold bitset_mem, _BitSet, buf_get. simpl.
  destruct (val / sizeof_INT_T <? 0); [done |].
  destruct (replicate _ _ !! _) as [w |] eqn:Hw; [| done].
  apply lookup_replicate in Hw as [-> _]. apply Z.testbit_0_l.
Qed.

Lemma _BitSet_fits elements val :
  0 <= val <= elements -> fits (_BitSet sizeof_INT_T elements) val.
Proof.
  intros [Hlo Hhi]. unfold bitset_fits, _BitSet. simpl.
  rewrite length_replicate. split; [done |].
  assert (0 <= elements / sizeof_INT_T) by (apply Z.div_pos; lia).
  assert (val / sizeof_INT_T <= elements / sizeof_INT_T)
    by (apply Z.div_le_mono; lia).
  lia.
Qed.

(** No word ever needs more than its low [sizeof(INT_T)] bits, so the
    stored value always fits an [INT_T] of [8*sizeof(INT_T)] bits. *)
Lemma new_bitset_words_small elements :
  words_small sizeof_INT_T (_BitSet sizeof_INT_T elements).
Proof.
  unfold words_small, _BitSet. simpl. apply Forall_replicate.
  split; [done |]. apply Z.pow_pos_nonneg; lia.
Qed.

Lemma bitset_add_words_small (self self' : BitSet) val r :
  fits self val -> words_small sizeof_INT_T self ->
  add self val = Some (r, self') -> words_small sizeof_INT_T self'.
Proof.
  intros Hfit Hsmall. rewrite (bitset_add_run self val Hfit).
  intros [= _ <-]. unfold words_small in *. simpl.
  destruct Hfit as [Hval Hcap].
  assert (0 <= val / sizeof_INT_T) as Hidx by (apply Z.div_pos; lia).
  destruct (lookup_lt_is_Some_2 (bits self)
              (Z.to_nat (val / sizeof_INT_T))) as [old Hold]; [lia |].
  rewrite Hold. simpl.
  apply Forall_insert; [done |].
  pose proof (Forall_lookup_1 _ _ _ _ Hsmall Hold) as [Hlo Hhi].
  pose proof (rel_index_range val) as Hrel.
  rewrite Z.shiftl_1_l. split.
  - apply Z.lor_nonneg. split; [apply Z.pow_nonneg; lia | done].
  - set (b := 2 ^ (val - val / sizeof_INT_T * sizeof_INT_T)).
    assert (0 < b) by (apply Z.pow_pos_nonneg; lia).
    assert (0 <= Z.lor b old) by (apply Z.lor_nonneg; lia).
    destruct (Z.eq_dec (Z.lor b old) 0) as [-> | Hnz];
      [apply Z.pow_pos_nonneg; lia |].
    apply Z.log2_lt_pow2; [lia |].
    rewrite Z.log2_lor by lia.
    apply Z.max_lub_lt.
    + unfold b. rewrite Z.log2_pow2 by lia. lia.
    + destruct (Z.eq_dec old 0) as [-> | Hold0]; [simpl; lia |].
      apply Z.log2_lt_pow2; lia.
Qed.

(** C3: within capacity, [add] sets the bit of [val], returns whether that
    bit was set before, and changes the membership of no other value; on a
    new set the first [add] of a value returns false and the second
    true. *)
Theorem bitset_add_test_and_set (self : BitSet) val elements u :
  fits self val -> 0 <= u <= elements ->
  (exists self',
      add self val = Some (mem self val, self')
      /\ mem self' val = true
      /\ (forall w, w <> val -> mem self' w = mem self w)
      /\ length (bits self') = length (bits self))
  /\ (exists s1 s2,
         add (_BitSet sizeof_INT_T elements) u = Some (false, s1)
         /\ add s1 u = Some (true, s2)).
Proof.
  intros Hfit Hu. split.
  - pose proof (bitset_add_run self val Hfit) as Hrun.
    eexists. split; [exact Hrun |]. split; [| split].
    + exact (bitset_add_sets _ _ _ _ Hfit Hrun).
    + intros w Hw. exact (bitset_add_frame _ _ _ _ w Hfit Hrun Hw).
    + exact (bitset_add_length _ _ _ _ Hfit Hrun).
  - pose proof (_BitSet_fits elements u Hu) as Hfit0.
    pose proof (bitset_add_run _ u Hfit0) as Hrun1.
    rewrite _BitSet_empty in Hrun1.
    eexists. eexists. split; [exact Hrun1 |].
    pose proof (bitset_add_sets _ _ _ _ Hfit0 Hrun1) as Hmem.
    assert (fits {| bits := <[Z.to_nat (u / sizeof_INT_T) :=
             Z.lor (Z.shiftl 1 (u - u / sizeof_INT_T * sizeof_INT_T))
               (default 0 (bits (_BitSet sizeof_INT_T elements)
                           !! Z.to_nat (u / sizeof_INT_T)))]>
             (bits (_BitSet sizeof_INT_T elements)) |} u) as Hfit1.
    { destruct Hfit0 as [H0 H1]. split; [done |]. simpl.
      rewrite length_insert. exact H1. }
    rewrite (bitset_add_run _ u Hfit1), Hmem. reflexivity.
Qed.

(** C7, as the code has it: the constructor allocates
    [max_element / sizeof(INT_T) + 1] words, the quotient rounded down and
    [sizeof(INT_T)] counted in bytes; every word is zero, and every value up
    to [max_element] is within capacity. *)
Theorem BitSet_alloc_words elements :
  0 <= elements ->
  Z.of_nat (length (bits (_BitSet sizeof_INT_T elements)))
  = elements / sizeof_INT_T + 1
  /\ Forall (fun w => w = 0) (bits (_BitSet sizeof_INT_T elements))
  /\ (forall val, 0 <= val <= elements ->
        fits (_BitSet sizeof_INT_T elements) val).
Proof.
  intros He. split; [| split].
  - unfold _BitSet. simpl. rewrite length_replicate.
    assert (0 <= elements / sizeof_INT_T) by (apply Z.div_pos; lia). lia.
  - unfold _BitSet. simpl. by apply Forall_replicate.
  - intros val Hval. by apply _BitSet_fits.
Qed.
End BitSetFacts.

Lemma bitset_add_test_and_set_witness :
  0 < 4 /\ bitset_fits 4 (MkBitSet [1; 0; 0]) 5 /\ 0 <= 5 <= 8 /\
  (exists self',
      bitset_add 4 (MkBitSet [1; 0; 0]) 5
      = Some (bitset_mem 4 (MkBitSet [1; 0; 0]) 5, self')
      /\ bitset_mem 4 self' 5 = true
      /\ (forall w, w <> 5 ->
            bitset_mem 4 self' w = bitset_mem 4 (MkBitSet [1; 0; 0]) w)
      /\ length (bits self') = length (bits (MkBitSet [1; 0; 0])))
  /\ (exists s1 s2,
         bitset_add 4 (_BitSet 4 8) 5 = Some (false, s1)
         /\ bitset_add 4 s1 5 = Some (true, s2)).
Proof.
  assert (bitset_fits 4 (MkBitSet [1; 0; 0]) 5) as Hfit.
  { unfold bitset_fits; simpl. split; [lia |]. vm_compute. reflexivity. }
  split; [lia |]. split; [exact Hfit |]. split; [lia |].
  apply (bitset_add_test_and_set 4 ltac:(lia) (MkBitSet [1; 0; 0]) 5 8 5
           Hfit ltac:(lia)).
Defined.

(** The example of the specification, for 4-byte and 8-byte words: [add(5)]
    on a new set is false, then true; after [add(0)], 0 is a member, 5 still
    is, and the two bits differ. *)
Example bitset_add_5_then_0 :
  bitset_add 4 (_BitSet 4 8) 5 = Some (false, MkBitSet [0; 2; 0])
  /\ bitset_add 4 (MkBitSet [0; 2; 0]) 5 = Some (true, MkBitSet [0; 2; 0])
  /\ bitset_add 4 (MkBitSet [0; 2; 0]) 0 = Some (false, MkBitSet [1; 2; 0])
  /\ bitset_add 8 (_BitSet 8 8) 5 = Some (false, MkBitSet [32; 0])
  /\ bitset_add 8 (MkBitSet [32; 0]) 5 = Some (true, MkBitSet [32; 0])
  /\ bitset_add 8 (MkBitSet [32; 0]) 0 = Some (false, MkBitSet [33; 0]).
Proof. repeat split; vm_compute; reflexivity. Qed.

Lemma BitSet_alloc_words_witness :
  0 < 4 /\ 0 <= 8 /\
  Z.of_nat (length (bits (_BitSet 4 8))) = 8 / 4 + 1
  /\ Forall (fun w => w = 0) (bits (_BitSet 4 8))
  /\ (forall val, 0 <= val <= 8 -> bitset_fits 4 (_BitSet 4 8) val).
Proof.
  split; [lia |]. split; [lia |].
  apply (BitSet_alloc_words 4 ltac:(lia) 8 ltac:(lia)).
Defined.

(** C7 as worded fails: for a capacity of 8 the constructor allocates 3
    words of 4 bytes (9 words for 64 with 8-byte words), where
    [ceil(max_element / word_bit_width) + 1] is 2; for a capacity of 1 it
    allocates 1 word, where the formula gives 2. *)
Lemma BitSet_alloc_not_ceil_of_bit_width :
  Z.of_nat (length (bits (_BitSet 4 8))) = 3
  /\ bitset_words_spec 32 8 = 2
  /\ Z.of_nat (length (bits (_BitSet 4 8))) <> bitset_words_spec 32 8
  /\ Z.of_nat (length (bits (_BitSet 8 64))) <> bitset_words_spec 64 64
  /\ Z.of_nat (length (bits (_BitSet 4 1))) <> bitset_words_spec 32 1.
Proof. repeat split; vm_compute; congruence. Qed.

(** * Further properties of the methods *)

(** ** Negation, rotation and chained calls *)

Lemma fneg_involutive a : fneg (fneg a) = a.
Proof. destruct a as [s|s| |s m e]; simpl; by rewrite ?negb_involutive. Qed.

(** Rotating the receiver four times restores the store exactly, and two
    rotations are one negation. *)
Theorem rot_s_four_times (h : heap Vector2D) p v :
  h !! p = Some v ->
  bind (rot_s p) (fun p1 => bind (rot_s p1) (fun p2 => bind (rot_s p2) rot_s)) h
  = Some (p, h)
  /\ bind (rot_s p) rot_s h = v_neg_s p h.
Proof.
  intros H. split.
  - unfold bind at 1, rot_s at 1. heap_run.
    unfold bind at 1, rot_s at 1. heap_run.
    unfold bind at 1, rot_s at 1. heap_run.
    unfold rot_s. heap_run.
    rewrite !fneg_involutive. destruct v; simpl. by rewrite (insert_id h p).
  - unfold bind at 1, rot_s at 1. heap_run.
    unfold rot_s, v_neg_s. heap_run. reflexivity.
Qed.

Lemma rot_s_four_times_witness :
  vec_heap 1 0 !! 1 = Some (MkVector2D (F64 1) (F64 0)) /\
  bind (rot_s 1)
    (fun p1 => bind (rot_s p1) (fun p2 => bind (rot_s p2) rot_s)) (vec_heap 1 0)
  = Some (1, vec_heap 1 0)
  /\ bind (rot_s 1) rot_s (vec_heap 1 0) = v_neg_s 1 (vec_heap 1 0).
Proof.
  split; [reflexivity |].
  exact (rot_s_four_times (vec_heap 1 0) 1 _ eq_refl).
Defined.

(** Negating the receiver twice restores the store exactly, for vectors and
    for matrices. *)
Theorem neg_s_twice (hv : heap Vector2D) (hm : heap Matrix2x2) p q v a :
  hv !! p = Some v -> hm !! q = Some a ->
  bind (v_neg_s p) v_neg_s hv = Some (p, hv)
  /\ bind (m_neg_s q) m_neg_s hm = Some (q, hm).
Proof.
  intros Hv Ha. split.
  - unfold bind at 1, v_neg_s at 1. heap_run. unfold v_neg_s. heap_run.
    rewrite !fneg_involutive. destruct v; simpl. by rewrite (insert_id hv p).
  - unfold bind at 1, m_neg_s at 1. heap_run. unfold m_neg_s. heap_run.
    rewrite !fneg_involutive. destruct a; simpl. by rewrite (insert_id hm q).
Qed.

Lemma neg_s_twice_witness :
  vec_heap 3 4 !! 1 = Some (MkVector2D (F64 3) (F64 4)) /\
  mat_heap 1 2 3 4 !! 1
  = Some (MkMatrix2x2 (F64 1) (F64 2) (F64 3) (F64 4)) /\
  bind (v_neg_s 1) v_neg_s (vec_heap 3 4) = Some (1, vec_heap 3 4)
  /\ bind (m_neg_s 1) m_neg_s (mat_heap 1 2 3 4) = Some (1, mat_heap 1 2 3 4).
Proof.
  split; [reflexivity |]. split; [reflexivity |].
  exact (neg_s_twice (vec_heap 3 4) (mat_heap 1 2 3 4) 1 1 _ _ eq_refl eq_refl).
Defined.

(** Two mutating calls chained on the pointer the first one returns, neither
    dividing by zero, act on the one receiver: its cell ends with the second
    result computed from the first, every other cell is as before and no
    cell is added. *)
Theorem self_calls_chain prec emax
    (hv : heap Vector2D) (hm : heap Matrix2x2) p q v a vop1 vop2 mop1 mop2 :
  hv !! p = Some v -> hm !! q = Some a ->
  vector_op_raises vop1 = false -> vector_op_raises vop2 = false ->
  matrix_op_raises mop1 = false -> matrix_op_raises mop2 = false ->
  (exists hv',
      and_then (vector_self prec emax vop1 p) (vector_self prec emax vop2) hv
      = Some (Done p, hv')
      /\ hv' !! p
         = Some (vector_spec prec emax vop2 (vector_spec prec emax vop1 v))
      /\ (forall p', p' <> p -> hv' !! p' = hv !! p')
      /\ dom hv' = dom hv)
  /\ (exists hm',
         and_then (matrix_self prec emax mop1 q) (matrix_self prec emax mop2) hm
         = Some (Done q, hm')
         /\ hm' !! q
            = Some (matrix_spec prec emax mop2 (matrix_spec prec emax mop1 a))
         /\ (forall q', q' <> q -> hm' !! q' = hm !! q')
         /\ dom hm' = dom hm).
Proof.
  intros Hv Ha Hv1 Hv2 Hm1 Hm2. split.
  - eexists. split.
    { unfold and_then, bind.
      rewrite (vector_self_run prec emax vop1 hv p v Hv Hv1).
      apply vector_self_run; [apply lookup_insert_eq | done]. }
    rewrite insert_insert_eq. split; [apply lookup_insert_eq |]. split.
    + intros p' Hp'. by rewrite lookup_insert_ne.
    + apply dom_insert_lookup_L. by exists v.
  - eexists. split.
    { unfold and_then, bind.
      rewrite (matrix_self_run prec emax mop1 hm q a Ha Hm1).
      apply matrix_self_run; [apply lookup_insert_eq | done]. }
    rewrite insert_insert_eq. split; [apply lookup_insert_eq |]. split.
    + intros q' Hq'. by rewrite lookup_insert_ne.
    + apply dom_insert_lookup_L. by exists a.
Qed.

Lemma self_calls_chain_witness :
  vec_heap 3 4 !! 1 = Some (MkVector2D (F64 3) (F64 4)) /\
  mat_heap 1 2 3 4 !! 1
  = Some (MkMatrix2x2 (F64 1) (F64 2) (F64 3) (F64 4)) /\
  vector_op_raises (Vsadd (F64 1)) = false /\
  vector_op_raises (Vsdiv (F64 2)) = false /\
  exists hv',
    and_then (vector_self 53 1024 (Vsadd (F64 1)) 1)
             (vector_self 53 1024 (Vsdiv (F64 2))) (vec_heap 3 4)
    = Some (Done 1, hv')
    /\ hv' !! 1
       = Some (vector_spec 53 1024 (Vsdiv (F64 2))
                 (vector_spec 53 1024 (Vsadd (F64 1))
                    (MkVector2D (F64 3) (F64 4))))
    /\ (forall p', p' <> 1 -> hv' !! p' = vec_heap 3 4 !! p')
    /\ dom hv' = dom (vec_heap 3 4).
Proof.
  split; [reflexivity |]. split; [reflexivity |].
  split; [reflexivity |]. split; [reflexivity |].
  exact (proj1 (self_calls_chain 53 1024 (vec_heap 3 4) (mat_heap 1 2 3 4)
                  1 1 _ _ (Vsadd (F64 1)) (Vsdiv (F64 2)) Mneg MT
                  eq_refl eq_refl eq_refl eq_refl eq_refl eq_refl)).
Defined.

Example chain_sadd_smul :
  and_then (vector_self 53 1024 (Vsadd (F64 1)) 1)
           (vector_self 53 1024 (Vsmul (F64 2))) (vec_heap 3 4)
  = Some (Done 1, vec_heap 8 10).
Proof. vm_compute. reflexivity. Qed.

(** ** Equality tests *)

Lemma feq_self a : feq a a = negb (is_nan a).
Proof.
  unfold feq, SFeqb, SFcompare.
  destruct a as [[]|[]| |[] m e]; simpl; try reflexivity;
    by rewrite Z.compare_refl, Pos.compare_cont_refl.
Qed.

Lemma feq_sym a b : feq a b = feq b a.
Proof.
  unfold feq, SFeqb, SFcompare.
  destruct a as [[]|[]| |[] m1 e1], b as [[]|[]| |[] m2 e2]; simpl;
    try reflexivity;
    rewrite (Z.compare_antisym e1 e2);
    pose proof (Pos.compare_cont_antisym m1 m2 Eq) as Hc; simpl in Hc;
    rewrite <- Hc;
    by destruct (e1 ?= e2), (Pos.compare_cont Eq m1 m2).
Qed.

Lemma v_equals_run (h : heap Vector2D) p v w :
  h !! p = Some v ->
  v_equals p w h = Some (feq (vx v) (vx w) && feq (vy v) (vy w), h).
Proof.
  intros H. unfold v_equals. heap_step.
  destruct (feq (vx v) (vx w)); [heap_run |]; reflexivity.
Qed.

Lemma m_equals_run (h : heap Matrix2x2) p a m :
  h !! p = Some a ->
  m_equals p m h
  = Some (feq (ma a) (ma m) && feq (mb a) (mb m)
          && feq (mc a) (mc m) && feq (md a) (md m), h).
Proof.
  intros H. unfold m_equals. heap_step.
  destruct (feq (ma a) (ma m)); [| reflexivity]. heap_step.
  destruct (feq (mb a) (mb m)); [| reflexivity]. heap_step.
  destruct (feq (mc a) (mc m)); [heap_run |]; reflexivity.
Qed.

(** [equals] against the receiver's own value is true exactly when no
    component is NaN; it never changes the store. *)
Theorem equals_own_value (hv : heap Vector2D) (hm : heap Matrix2x2) p q v a :
  hv !! p = Some v -> hm !! q = Some a ->
  v_equals p v hv
  = Some (negb (is_nan (vx v)) && negb (is_nan (vy v)), hv)
  /\ m_equals q a hm
     = Some (negb (is_nan (ma a)) && negb (is_nan (mb a))
             && negb (is_nan (mc a)) && negb (is_nan (md a)), hm).
Proof.
  intros Hv Ha. split.
  - by rewrite (v_equals_run hv p v v Hv), !feq_self.
  - by rewrite (m_equals_run hm q a a Ha), !feq_self.
Qed.

Lemma equals_own_value_witness :
  vec_heap 3 4 !! 1 = Some (MkVector2D (F64 3) (F64 4)) /\
  mat_heap 1 2 3 4 !! 1
  = Some (MkMatrix2x2 (F64 1) (F64 2) (F64 3) (F64 4)) /\
  v_equals 1 (MkVector2D (F64 3) (F64 4)) (vec_heap 3 4)
  = Some (true, vec_heap 3 4).
Proof.
  split; [reflexivity |]. split; [reflexivity |].
  exact (proj1 (equals_own_value (vec_heap 3 4) (mat_heap 1 2 3 4) 1 1 _ _
                  eq_refl eq_refl)).
Defined.

(** A vector with a NaN component is not equal to itself. *)
Example v_equals_nan :
  v_equals 1 (MkVector2D S754_nan (F64 0))
    {[ 1 := MkVector2D S754_nan (F64 0) ]}
  = Some (false, {[ 1 := MkVector2D S754_nan (F64 0) ]}).
Proof. reflexivity. Qed.

(** [equals] gives the same answer whichever of the two values is the
    receiver. *)
Theorem equals_symmetric (hv : heap Vector2D) (hm : heap Matrix2x2)
    p p' q q' v w a b :
  hv !! p = Some v -> hv !! p' = Some w ->
  hm !! q = Some a -> hm !! q' = Some b ->
  v_equals p w hv = v_equals p' v hv
  /\ m_equals q b hm = m_equals q' a hm.
Proof.
  intros Hv Hw Ha Hb. split.
  - rewrite (v_equals_run hv p v w Hv), (v_equals_run hv p' w v Hw).
    by rewrite (feq_sym (vx v)), (feq_sym (vy v)).
  - rewrite (m_equals_run hm q a b Ha), (m_equals_run hm q' b a Hb).
    by rewrite (feq_sym (ma a)), (feq_sym (mb a)), (feq_sym (mc a)),
      (feq_sym (md a)).
Qed.

Lemma equals_symmetric_witness :
  two_vec_heap !! 1 = Some (MkVector2D (F64 1) (F64 2)) /\
  two_vec_heap !! 2 = Some (MkVector2D (F64 3) (F64 4)) /\
  mat_heap 1 2 3 4 !! 1
  = Some (MkMatrix2x2 (F64 1) (F64 2) (F64 3) (F64 4)) /\
  v_equals 1 (MkVector2D (F64 3) (F64 4)) two_vec_heap
  = v_equals 2 (MkVector2D (F64 1) (F64 2)) two_vec_heap.
Proof.
  split; [reflexivity |]. split; [reflexivity |]. split; [reflexivity |].
  exact (proj1 (equals_symmetric two_vec_heap (mat_heap 1 2 3 4) 1 2 1 1
                  _ _ _ _ eq_refl eq_refl eq_refl eq_refl)).
Defined.

(** ** Algebraic identities that hold exactly *)

(** Element-wise addition and multiplication do not depend on which operand
    is the receiver. *)
Theorem elementwise_add_mul_commute prec emax
    (hv : heap Vector2D) (hm : heap Matrix2x2) p p' q q' v w a b :
  hv !! p = Some v -> hv !! p' = Some w ->
  hm !! q = Some a -> hm !! q' = Some b ->
  v_vadd_c prec emax p w hv = v_vadd_c prec emax p' v hv
  /\ v_vmul_c prec emax p w hv = v_vmul_c prec emax p' v hv
  /\ m_madd_c prec emax q b hm = m_madd_c prec emax q' a hm
  /\ m_mmul_c prec emax q b hm = m_mmul_c prec emax q' a hm.
Proof.
  intros Hv Hw Ha Hb. repeat split.
  - rewrite (vector_copy_plain prec emax (Vvadd w) hv p v Hv
             : v_vadd_c prec emax p w hv = _).
    rewrite (vector_copy_plain prec emax (Vvadd v) hv p' w Hw
             : v_vadd_c prec emax p' v hv = _).
    simpl. by rewrite (fadd_comm _ _ (vx v)), (fadd_comm _ _ (vy v)).
  - rewrite (vector_copy_plain prec emax (Vvmul w) hv p v Hv
             : v_vmul_c prec emax p w hv = _).
    rewrite (vector_copy_plain prec emax (Vvmul v) hv p' w Hw
             : v_vmul_c prec emax p' v hv = _).
    simpl. by rewrite (fmul_comm _ _ (vx v)), (fmul_comm _ _ (vy v)).
  - rewrite (matrix_copy_plain prec emax (Mmadd b) hm q a Ha
             : m_madd_c prec emax q b hm = _).
    rewrite (matrix_copy_plain prec emax (Mmadd a) hm q' b Hb
             : m_madd_c prec emax q' a hm = _).
    simpl. by rewrite (fadd_comm _ _ (ma a)), (fadd_comm _ _ (mb a)),
      (fadd_comm _ _ (mc a)), (fadd_comm _ _ (md a)).
  - rewrite (matrix_copy_plain prec emax (Mmmul b) hm q a Ha
             : m_mmul_c prec emax q b hm = _).
    rewrite (matrix_copy_plain prec emax (Mmmul a) hm q' b Hb
             : m_mmul_c prec emax q' a hm = _).
    simpl. by rewrite (fmul_comm _ _ (ma a)), (fmul_comm _ _ (mb a)),
      (fmul_comm _ _ (mc a)), (fmul_comm _ _ (md a)).
Qed.

Lemma elementwise_add_mul_commute_witness :
  two_vec_heap !! 1 = Some (MkVector2D (F64 1) (F64 2)) /\
  two_vec_heap !! 2 = Some (MkVector2D (F64 3) (F64 4)) /\
  mat_heap 1 2 3 4 !! 1
  = Some (MkMatrix2x2 (F64 1) (F64 2) (F64 3) (F64 4)) /\
  v_vadd_c 53 1024 1 (MkVector2D (F64 3) (F64 4)) two_vec_heap
  = v_vadd_c 53 1024 2 (MkVector2D (F64 1) (F64 2)) two_vec_heap.
Proof.
  split; [reflexivity |]. split; [reflexivity |]. split; [reflexivity |].
  exact (proj1 (elementwise_add_mul_commute 53 1024 two_vec_heap
                  (mat_heap 1 2 3 4) 1 2 1 1 _ _ _ _
                  eq_refl eq_refl eq_refl eq_refl)).
Defined.

Lemma v_vecmul_run prec emax (h : heap Vector2D) p v w :
  h !! p = Some v ->
  v_vecmul prec emax p w h
  = Some (MkMatrix2x2 (fmul prec emax (vx v) (vx w))
                      (fmul prec emax (vx v) (vy w))
                      (fmul prec emax (vy v) (vx w))
                      (fmul prec emax (vy v) (vy w)), h).
Proof. intros H. unfold v_vecmul. heap_run. reflexivity. Qed.

Lemma m_vecmul_run prec emax (h : heap Matrix2x2) p a v :
  h !! p = Some a ->
  m_vecmul prec emax p v h
  = Some (MkVector2D
            (fadd prec emax (fmul prec emax (ma a) (vx v))
                            (fmul prec emax (mb a) (vy v)))
            (fadd prec emax (fmul prec emax (mc a) (vx v))
                            (fmul prec emax (md a) (vy v))), h).
Proof. intros H. unfold m_vecmul. heap_run. reflexivity. Qed.

(** The outer product with the operands exchanged is the transposed matrix,
    and the sum of its diagonal is the dot product. *)
Theorem vecmul_transposed_and_trace prec emax (h : heap Vector2D) p p' v w :
  h !! p = Some v -> h !! p' = Some w ->
  exists r,
    v_vecmul prec emax p w h = Some (r, h)
    /\ v_vecmul prec emax p' v h = Some (transposed r, h)
    /\ dot prec emax p w h = Some (fadd prec emax (ma r) (md r), h).
Proof.
  intros Hv Hw. eexists. split; [by apply v_vecmul_run |]. split.
  - rewrite (v_vecmul_run prec emax h p' w v Hw). unfold transposed; simpl.
    by rewrite (fmul_comm _ _ (vx w) (vx v)), (fmul_comm _ _ (vx w) (vy v)),
      (fmul_comm _ _ (vy w) (vx v)), (fmul_comm _ _ (vy w) (vy v)).
  - simpl. by apply dot_run.
Qed.

Lemma vecmul_transposed_and_trace_witness :
  two_vec_heap !! 1 = Some (MkVector2D (F64 1) (F64 2)) /\
  two_vec_heap !! 2 = Some (MkVector2D (F64 3) (F64 4)) /\
  exists r,
    v_vecmul 53 1024 1 (MkVector2D (F64 3) (F64 4)) two_vec_heap
    = Some (r, two_vec_heap)
    /\ v_vecmul 53 1024 2 (MkVector2D (F64 1) (F64 2)) two_vec_heap
       = Some (transposed r, two_vec_heap)
    /\ dot 53 1024 1 (MkVector2D (F64 3) (F64 4)) two_vec_heap
       = Some (fadd 53 1024 (ma r) (md r), two_vec_heap).
Proof.
  split; [reflexivity |]. split; [reflexivity |].
  exact (vecmul_transposed_and_trace 53 1024 two_vec_heap 1 2 _ _
           eq_refl eq_refl).
Defined.

(** A row vector times a matrix is the transposed matrix times the column
    vector: [v.matmul(m)] and [transpose(m).vecmul(v)] return the same
    vector. *)
Theorem v_matmul_is_transposed_vecmul prec emax
    (hv : heap Vector2D) (hm : heap Matrix2x2) p q v m :
  hv !! p = Some v -> hm !! q = Some (transposed m) ->
  exists r,
    v_matmul_c prec emax p m hv = Some (r, hv)
    /\ m_vecmul prec emax q v hm = Some (r, hm).
Proof.
  intros Hv Hm. eexists. split.
  - exact (vector_copy_plain prec emax (Vmatmul m) hv p v Hv).
  - rewrite (m_vecmul_run prec emax hm q _ v Hm). simpl.
    by rewrite (fmul_comm _ _ (ma m)), (fmul_comm _ _ (mc m)),
      (fmul_comm _ _ (mb m)), (fmul_comm _ _ (md m)).
Qed.

Lemma v_matmul_is_transposed_vecmul_witness :
  vec_heap 3 4 !! 1 = Some (MkVector2D (F64 3) (F64 4)) /\
  mat_heap 1 3 2 4 !! 1
  = Some (transposed (MkMatrix2x2 (F64 1) (F64 2) (F64 3) (F64 4))) /\
  exists r,
    v_matmul_c 53 1024 1 (MkMatrix2x2 (F64 1) (F64 2) (F64 3) (F64 4))
      (vec_heap 3 4) = Some (r, vec_heap 3 4)
    /\ m_vecmul 53 1024 1 (MkVector2D (F64 3) (F64 4)) (mat_heap 1 3 2 4)
       = Some (r, mat_heap 1 3 2 4).
Proof.
  split; [reflexivity |]. split; [reflexivity |].
  exact (v_matmul_is_transposed_vecmul 53 1024 (vec_heap 3 4)
           (mat_heap 1 3 2 4) 1 1 _
           (MkMatrix2x2 (F64 1) (F64 2) (F64 3) (F64 4)) eq_refl eq_refl).
Defined.

(** The transpose of a product is the product of the transposes in the
    other order, exactly. *)
Theorem matmul_transposed prec emax (h h' : heap Matrix2x2) q q' a b :
  h !! q = Some a -> h' !! q' = Some (transposed b) ->
  m_transpose_c q h = Some (transposed a, h)
  /\ exists r,
      m_matmul_c prec emax q b h = Some (r, h)
      /\ m_matmul_c prec emax q' (transposed a) h' = Some (transposed r, h').
Proof.
  intros Ha Hb. split.
  - exact (matrix_copy_plain 0 0 MT h q a Ha).
  - eexists. split.
    + exact (matrix_copy_plain prec emax (Mmatmul b) h q a Ha).
    + rewrite (matrix_copy_plain prec emax (Mmatmul (transposed a)) h' q' _ Hb
               : m_matmul_c prec emax q' (transposed a) h' = _).
      unfold transposed; simpl.
      by rewrite (fmul_comm _ _ (ma b)), (fmul_comm _ _ (mc b)),
        (fmul_comm _ _ (mb b)), (fmul_comm _ _ (md b)),
        (fmul_comm _ _ (ma b) (mc a)), (fmul_comm _ _ (mc b) (md a)),
        (fmul_comm _ _ (mb b) (mc a)), (fmul_comm _ _ (md b) (md a)).
Qed.

Lemma matmul_transposed_witness :
  mat_heap 1 2 3 4 !! 1
  = Some (MkMatrix2x2 (F64 1) (F64 2) (F64 3) (F64 4)) /\
  mat_heap 5 7 6 8 !! 1
  = Some (transposed (MkMatrix2x2 (F64 5) (F64 6) (F64 7) (F64 8))) /\
  exists r,
    m_matmul_c 53 1024 1 (MkMatrix2x2 (F64 5) (F64 6) (F64 7) (F64 8))
      (mat_heap 1 2 3 4) = Some (r, mat_heap 1 2 3 4)
    /\ m_matmul_c 53 1024 1
         (transposed (MkMatrix2x2 (F64 1) (F64 2) (F64 3) (F64 4)))
         (mat_heap 5 7 6 8) = Some (transposed r, mat_heap 5 7 6 8).
Proof.
  split; [reflexivity |]. split; [reflexivity |].
  exact (proj2 (matmul_transposed 53 1024 (mat_heap 1 2 3 4)
                  (mat_heap 5 7 6 8) 1 1 _
                  (MkMatrix2x2 (F64 5) (F64 6) (F64 7) (F64 8))
                  eq_refl eq_refl)).
Defined.

(** ** Infinities and NaN *)

(** When the receiver's [b] is infinite and the operand's [c] is a zero, as
    in the identity matrix, the product's [a] is NaN whatever the other
    components are, and the product does not compare equal to the
    receiver. *)
Theorem matmul_infinity_times_zero prec emax (h h' : heap Matrix2x2)
    q q' a m sb sc :
  h !! q = Some a ->
  mb a = S754_infinity sb -> mc m = S754_zero sc ->
  exists r,
    m_matmul_c prec emax q m h = Some (r, h)
    /\ ma r = S754_nan
    /\ (h' !! q' = Some r -> m_equals q' a h' = Some (false, h')).
Proof.
  intros Ha Hb Hc. eexists. split.
  { exact (matrix_copy_plain prec emax (Mmatmul m) h q a Ha). }
  assert (ma (matrix_spec prec emax (Mmatmul m) a) = S754_nan) as Hnan.
  { simpl. rewrite Hb, Hc. unfold fadd, fmul. simpl.
    by destruct (SFmul prec emax (ma a) (ma m)). }
  split; [exact Hnan |].
  intros Hr. rewrite (m_equals_run h' q' _ a Hr), Hnan. reflexivity.
Qed.

Lemma matmul_infinity_times_zero_witness :
  inf_mat_heap !! 1 = Some inf_matrix /\
  mb inf_matrix = S754_infinity false /\
  mc identity_matrix = S754_zero false /\
  exists r,
    m_matmul_c 53 1024 1 identity_matrix inf_mat_heap = Some (r, inf_mat_heap)
    /\ ma r = S754_nan.
Proof.
  assert (inf_mat_heap !! 1 = Some inf_matrix) as Hl by reflexivity.
  assert (mc identity_matrix = S754_zero false) as Hc by reflexivity.
  split; [exact Hl |]. split; [reflexivity |]. split; [exact Hc |].
  destruct (matmul_infinity_times_zero 53 1024 inf_mat_heap inf_mat_heap 1 1
              inf_matrix identity_matrix false false Hl eq_refl Hc)
    as (r & Hr & Hnan & _).
  exists r. split; [exact Hr | exact Hnan].
Defined.

(** ** Magnitude *)

Lemma binary_round_aux_sign prec emax s m e l :
  match binary_round_aux prec emax s m e l with
  | S754_nan => True
  | S754_zero s' | S754_infinity s' | S754_finite s' _ _ => s' = s
  end.
Proof.
  unfold binary_round_aux.
  destruct (shr_fexp prec emax m e l) as [mrs' e'].
  destruct (shr_fexp prec emax _ e' loc_Exact) as [mrs'' e''].
  destruct (shr_m mrs''); [done | | done].
  by destruct (e'' <=? emax - prec).
Qed.

Lemma binary_round_sign_clear prec emax m e :
  sign_clear (binary_round prec emax false m e).
Proof.
  unfold binary_round. destruct (shl_align _ _ _) as [mz ez].
  pose proof (binary_round_aux_sign prec emax false (Z.pos mz) ez loc_Exact).
  unfold sign_clear. by destruct (binary_round_aux _ _ _ _ _ _).
Qed.

Lemma fmul_self_sign_clear prec emax a : sign_clear (fmul prec emax a a).
Proof.
  unfold fmul. destruct a as [[]|[]| |s m e]; simpl; try done.
  pose proof (binary_round_aux_sign prec emax (xorb s s)
                (Z.pos (m * m)) (e + e) loc_Exact) as H.
  rewrite xorb_nilpotent in *. unfold sign_clear.
  by destruct (binary_round_aux _ _ _ _ _ _).
Qed.

Lemma fadd_sign_clear prec emax a b :
  sign_clear a -> sign_clear b -> sign_clear (fadd prec emax a b).
Proof.
  unfold fadd.
  destruct a as [sa|sa| |sa m1 e1], b as [sb|sb| |sb m2 e2]; simpl;
    intros Ha Hb; subst; simpl; try done.
  apply binary_round_sign_clear.
Qed.

Lemma fcast_sign_clear p e a : sign_clear a -> sign_clear (fcast p e a).
Proof.
  destruct a as [s|s| |s m ex]; simpl; try done.
  intros Hs; subst. apply binary_round_sign_clear.
Qed.

Lemma c_sqrt_sign_clear a : sign_clear a -> sign_clear (c_sqrt a).
Proof.
  unfold c_sqrt. destruct a as [s|s| |s m e]; simpl; try done.
  - intros Hs; subst. done.
  - intros Hs; subst. destruct (SFsqrt_core_binary 53 1024 (Z.pos m) e) as [[mz ez] lz].
    pose proof (binary_round_aux_sign 53 1024 false mz ez lz).
    unfold sign_clear. by destruct (binary_round_aux _ _ _ _ _ _).
Qed.

Lemma sign_clear_nonneg a :
  sign_clear a -> is_nan a = false -> SFleb (S754_zero false) a = true.
Proof.
  destruct a as [s|s| |s m e]; simpl; try done; intros Hs; by subst.
Qed.

(** [mag] is the square root of the dot product of the receiver with
    itself, taken on doubles; it leaves the store alone and never returns a
    negative number or a negative zero: the result is NaN or compares
    [>= 0]. *)
Theorem mag_not_negative prec emax (h : heap Vector2D) p v :
  h !! p = Some v ->
  exists r d,
    mag prec emax p h = Some (r, h)
    /\ dot prec emax p v h = Some (d, h)
    /\ r = fcast prec emax (c_sqrt (fcast 53 1024 d))
    /\ sign_clear r
    /\ (is_nan r = false -> SFleb (S754_zero false) r = true).
Proof.
  intros H. eexists. eexists. split.
  { unfold mag. heap_run. reflexivity. }
  split; [by apply dot_run |]. split; [reflexivity |].
  assert (sign_clear
            (fcast prec emax
               (c_sqrt (fcast 53 1024
                  (fadd prec emax (fmul prec emax (vx v) (vx v))
                                  (fmul prec emax (vy v) (vy v))))))) as Hs.
  { apply fcast_sign_clear, c_sqrt_sign_clear, fcast_sign_clear,
      fadd_sign_clear; apply fmul_self_sign_clear. }
  split; [exact Hs |]. by apply sign_clear_nonneg.
Qed.

Lemma mag_not_negative_witness :
  vec_heap 3 4 !! 1 = Some (MkVector2D (F64 3) (F64 4)) /\
  exists r d,
    mag 53 1024 1 (vec_heap 3 4) = Some (r, vec_heap 3 4)
    /\ dot 53 1024 1 (MkVector2D (F64 3) (F64 4)) (vec_heap 3 4)
       = Some (d, vec_heap 3 4)
    /\ r = fcast 53 1024 (c_sqrt (fcast 53 1024 d))
    /\ sign_clear r
    /\ (is_nan r = false -> SFleb (S754_zero false) r = true).
Proof.
  split; [reflexivity |].
  exact (mag_not_negative 53 1024 (vec_heap 3 4) 1 _ eq_refl).
Defined.

(** On doubles, the magnitude of [(3,4)] is 5 and that of [(-3,-4)] too. *)
Example mag_3_4 :
  mag 53 1024 1 (vec_heap 3 4) = Some (F64 5, vec_heap 3 4)
  /\ mag 53 1024 1 (vec_heap (-3) (-4)) = Some (F64 5, vec_heap (-3) (-4)).
Proof. split; vm_compute; reflexivity. Qed.

(** ** More on IArray and FArray *)

Lemma farray_valid_indices_pass (self : FArray) index :
  index.1 <= (farray_shape self).1 -> index.2 <= (farray_shape self).2 ->
  farray_valid_indices self index = inr false.
Proof. intros H1 H2. by apply (farray_valid_indices_raises self index). Qed.

Lemma iarray_valid_indices_pass (self : IArray) index :
  index.1 <= (iarray_shape self).1 -> index.2 <= (iarray_shape self).2 ->
  iarray_valid_indices self index = inr false.
Proof. intros H1 H2. by apply (iarray_valid_indices_raises self index). Qed.


Lemma iarray_2x3_wf : iarray_wf iarray_2x3.
Proof. unfold iarray_wf; simpl; lia. Defined.

Lemma farray_2x3_wf : farray_wf farray_2x3.
Proof. unfold farray_wf; simpl; lia. Defined.


(** The check has no lower bound: an index with a negative row and a
    negative column passes it, and the access falls before the buffer. *)
Theorem valid_indices_accept_negative (ia : IArray) (fa : FArray) i j v x :
  0 <= (iarray_shape ia).1 -> 0 <= (iarray_shape ia).2 ->
  0 <= (farray_shape fa).1 -> 0 <= (farray_shape fa).2 ->
  i < 0 -> j < 0 ->
  iarray_get_checked ia (i, j) = inr None
  /\ iarray_set_checked ia (i, j) v = inr None
  /\ farray_get_checked fa (i, j) = inr None
  /\ farray_set_checked fa (i, j) x = inr None.
Proof.
  intros Hr Hc Hr' Hc' Hi Hj.
  assert (offset (iarray_shape ia) (i, j) < 0) as Ho
    by (unfold offset; simpl; nia).
  assert (offset (farray_shape fa) (i, j) < 0) as Ho'
    by (unfold offset; simpl; nia).
  unfold iarray_get_checked, iarray_set_checked, farray_get_checked,
    farray_set_checked.
  rewrite iarray_valid_indices_pass, farray_valid_indices_pass
    by (simpl; lia).
  unfold iarray_get, iarray_set, farray_get, farray_set, buf_get, buf_set.
  rewrite (proj2 (Z.ltb_lt _ 0) Ho), (proj2 (Z.ltb_lt _ 0) Ho').
  rewrite (proj2 (Z.leb_gt 0 _) Ho), (proj2 (Z.leb_gt 0 _) Ho').
  done.
Qed.

Lemma valid_indices_accept_negative_witness :
  0 <= 2 /\ 0 <= 3 /\ -1 < 0 /\
  iarray_get_checked iarray_2x3 (-1, -1) = inr None
  /\ iarray_set_checked iarray_2x3 (-1, -1) 42 = inr None.
Proof.
  split; [lia |]. split; [lia |]. split; [lia |].
  destruct (valid_indices_accept_negative iarray_2x3 farray_2x3 (-1) (-1) 42
              (F64 42)) as (Hg & Hs & _);
    simpl; try lia.
  exact (conj Hg Hs).
Defined.

(** The check lets a column equal to [cols] through, and the access then
    lands on the first element of the next row: reading [(i, cols)] returns
    element [(i+1, 0)] and writing it overwrites that element. *)
Theorem column_overrun_hits_next_row (ia : IArray) i v :
  iarray_wf ia ->
  in_bounds (iarray_shape ia) (i + 1, 0) -> 0 <= i ->
  iarray_get_checked ia (i, (iarray_shape ia).2)
  = inr (iarray_get ia (i + 1, 0))
  /\ is_Some (iarray_get ia (i + 1, 0))
  /\ iarray_set_checked ia (i, (iarray_shape ia).2) v
     = inr (iarray_set ia (i + 1, 0) v).
Proof.
  intros (Hr & Hc & Hlen) Hin Hi.
  pose proof (offset_inside _ _ _ Hr Hc Hlen Hin) as Hoff.
  destruct Hin as [Hi1 Hj1]. simpl in Hi1, Hj1.
  assert (offset (iarray_shape ia) (i, (iarray_shape ia).2)
          = offset (iarray_shape ia) (i + 1, 0)) as Hsame
    by (unfold offset; simpl; lia).
  unfold iarray_get_checked, iarray_set_checked.
  rewrite iarray_valid_indices_pass by (simpl; lia).
  unfold iarray_get, iarray_set. rewrite Hsame.
  split; [done |]. split; [| done].
  rewrite buf_get_lookup by lia. apply lookup_lt_is_Some. lia.
Qed.

Lemma column_overrun_hits_next_row_witness :
  iarray_wf iarray_2x3 /\ in_bounds (2, 3) (0 + 1, 0) /\ 0 <= 0 /\
  iarray_get_checked iarray_2x3 (0, 3) = inr (iarray_get iarray_2x3 (0 + 1, 0))
  /\ is_Some (iarray_get iarray_2x3 (0 + 1, 0))
  /\ iarray_set_checked iarray_2x3 (0, 3) 42
     = inr (iarray_set iarray_2x3 (0 + 1, 0) 42).
Proof.
  assert (in_bounds (2, 3) (0 + 1, 0)) as Hb by (unfold in_bounds; simpl; lia).
  split; [exact iarray_2x3_wf |]. split; [exact Hb |]. split; [lia |].
  apply (column_overrun_hits_next_row iarray_2x3 0 42 iarray_2x3_wf Hb).
  lia.
Defined.

Lemma farray_set_get_other (fa fa' : FArray) index index' x :
  farray_wf fa ->
  in_bounds (farray_shape fa) index -> in_bounds (farray_shape fa) index' ->
  index' <> index ->
  farray_set fa index x = Some fa' ->
  farray_get fa' index' = farray_get fa index'.
Proof.
  intros (Hr & Hc & Hlen) Hin Hin' Hne.
  pose proof (offset_inside _ _ _ Hr Hc Hlen Hin) as Hoff.
  unfold farray_set, farray_get. rewrite buf_set_inside by lia. simpl.
  intros [= <-]. simpl. apply buf_get_set_ne; [lia |].
  intros Heq. apply Hne. by apply (offset_inj (farray_shape fa)).
Qed.

(** An in-bounds [set] changes the element it names and no other in-bounds
    element. *)
Theorem set_leaves_other_elements (ia ia' : IArray) (fa fa' : FArray)
    index index' v x :
  iarray_wf ia -> farray_wf fa ->
  in_bounds (iarray_shape ia) index -> in_bounds (iarray_shape ia) index' ->
  in_bounds (farray_shape fa) index -> in_bounds (farray_shape fa) index' ->
  index' <> index ->
  iarray_set ia index v = Some ia' -> farray_set fa index x = Some fa' ->
  iarray_get ia' index' = iarray_get ia index'
  /\ farray_get fa' index' = farray_get fa index'.
Proof.
  intros Hwi Hwf Hi Hi' Hf Hf' Hne Hsi Hsf. split.
  - by apply (iarray_set_get_other ia ia' index index' v).
  - by apply (farray_set_get_other fa fa' index index' x).
Qed.

Lemma set_leaves_other_elements_witness :
  iarray_wf iarray_2x3 /\ farray_wf farray_2x3 /\
  in_bounds (2, 3) (1, 2) /\ in_bounds (2, 3) (0, 1) /\ (0, 1) <> (1, 2) /\
  iarray_get (_IArray [0; 0; 0; 0; 0; 42] (2, 3)) (0, 1)
  = iarray_get iarray_2x3 (0, 1).
Proof.
  assert (in_bounds (2, 3) (1, 2)) as Hb by (unfold in_bounds; simpl; lia).
  assert (in_bounds (2, 3) (0, 1)) as Hb' by (unfold in_bounds; simpl; lia).
  assert ((0, 1) <> (1, 2)) as Hne by discriminate.
  split; [exact iarray_2x3_wf |]. split; [exact farray_2x3_wf |].
  split; [exact Hb |]. split; [exact Hb' |]. split; [exact Hne |].
  exact (proj1 (set_leaves_other_elements iarray_2x3
                  (_IArray [0; 0; 0; 0; 0; 42] (2, 3)) farray_2x3
                  (_FArray (<[5%nat := F64 42]> (replicate 6 (F64 0))) (2, 3))
                  (1, 2) (0, 1) 42 (F64 42)
                  iarray_2x3_wf farray_2x3_wf Hb Hb' Hb Hb' Hne
                  eq_refl eq_refl)).
Defined.

(** Whatever the index, a [set] that stays inside the buffer keeps the shape
    and the buffer length: the array is never resized. *)
Theorem set_keeps_shape (ia ia' : IArray) (fa fa' : FArray) index v x :
  iarray_set ia index v = Some ia' -> farray_set fa index x = Some fa' ->
  (iarray_shape ia' = iarray_shape ia
   /\ length (iarray_arr ia') = length (iarray_arr ia)
   /\ (iarray_wf ia -> iarray_wf ia'))
  /\ (farray_shape fa' = farray_shape fa
      /\ length (farray_arr fa') = length (farray_arr fa)
      /\ (farray_wf fa -> farray_wf fa')).
Proof.
  unfold iarray_set, farray_set, buf_set.
  destruct (_ && _); [| done]. destruct (_ && _); [| done]. simpl.
  intros [= <-] [= <-]. simpl. rewrite !length_insert.
  unfold iarray_wf, farray_wf. simpl. rewrite !length_insert. done.
Qed.

Lemma set_keeps_shape_witness :
  iarray_set iarray_2x3 (1, 2) 42 = Some (_IArray [0; 0; 0; 0; 0; 42] (2, 3))
  /\ iarray_shape (_IArray [0; 0; 0; 0; 0; 42] (2, 3)) = iarray_shape iarray_2x3
  /\ length (iarray_arr (_IArray [0; 0; 0; 0; 0; 42] (2, 3)))
     = length (iarray_arr iarray_2x3).
Proof.
  split; [reflexivity |].
  destruct (set_keeps_shape iarray_2x3 (_IArray [0; 0; 0; 0; 0; 42] (2, 3))
              farray_2x3
              (_FArray (<[5%nat := F64 42]> (replicate 6 (F64 0))) (2, 3))
              (1, 2) 42 (F64 42) eq_refl eq_refl) as [(Hs & Hl & _) _].
  exact (conj Hs Hl).
Defined.

(** Row-major layout is one-to-one and onto: every position [k] of a
    [rows*cols] buffer is the offset of the in-bounds index
    [(k / cols, k mod cols)] and of no other in-bounds index. *)
Theorem offset_bijective rows cols k :
  0 <= k < rows * cols -> 0 < cols ->
  in_bounds (rows, cols) (k / cols, k mod cols)
  /\ offset (rows, cols) (k / cols, k mod cols) = k
  /\ (forall index, in_bounds (rows, cols) index ->
        offset (rows, cols) index = k -> index = (k / cols, k mod cols)).
Proof.
  intros Hk Hc.
  pose proof (Z.mod_pos_bound k cols Hc) as Hm.
  pose proof (Z.div_mod k cols ltac:(lia)) as Hdm.
  assert (0 <= k / cols) by (apply Z.div_pos; lia).
  assert (in_bounds (rows, cols) (k / cols, k mod cols)) as Hin.
  { unfold in_bounds; simpl. split; [| lia]. split; [lia |]. nia. }
  assert (offset (rows, cols) (k / cols, k mod cols) = k) as Hoff.
  { unfold offset; simpl. lia. }
  split; [exact Hin |]. split; [exact Hoff |].
  intros index Hidx Ho. apply (offset_inj (rows, cols)); [done | done |].
  by rewrite Hoff.
Qed.

Lemma offset_bijective_witness :
  0 <= 5 < 2 * 3 /\ 0 < 3 /\
  in_bounds (2, 3) (5 / 3, 5 mod 3)
  /\ offset (2, 3) (5 / 3, 5 mod 3) = 5
  /\ (forall index, in_bounds (2, 3) index ->
        offset (2, 3) index = 5 -> index = (5 / 3, 5 mod 3)).
Proof.
  split; [lia |]. split; [lia |].
  apply (offset_bijective 2 3 5); lia.
Defined.

(** ** More on BitSet *)

Section BitSetSequences.
Variable sizeof_INT_T : Z.
Hypothesis sizeof_pos : 0 < sizeof_INT_T.

Local Notation "'add'" := (bitset_add sizeof_INT_T).
Local Notation "'mem'" := (bitset_mem sizeof_INT_T).
Local Notation "'fits'" := (bitset_fits sizeof_INT_T).
Local Notation "'add_seq'" := (bitset_add_seq sizeof_INT_T).

Lemma fits_same_length (self self' : BitSet) val :
  length (bits self') = length (bits self) -> fits self val -> fits self' val.
Proof. unfold bitset_fits. intros ->. done. Qed.

(** Outside the capacity [add] is undefined. *)
Lemma bitset_add_defined (self : BitSet) val :
  is_Some (add self val) <-> fits self val.
Proof.
  split.
  - intros [r Hr]. unfold bitset_add in Hr. unfold bitset_fits.
    destruct (val <? 0) eqn:Hneg; [done |]. apply Z.ltb_ge in Hneg.
    split; [done |].
    destruct (Z.lt_ge_cases (val / sizeof_INT_T)
                (Z.of_nat (length (bits self)))) as [| Hge]; [done |].
    assert (0 <= val / sizeof_INT_T) by (apply Z.div_pos; lia).
    rewrite buf_get_lookup, lookup_ge_None_2 in Hr by lia. done.
  - intros Hfit. rewrite (bitset_add_run _ sizeof_pos self val Hfit). eauto.
Qed.

Lemma bitset_add_seq_run vals : forall self,
  Forall (fits self) vals ->
  exists s,
    add_seq self vals = Some s
    /\ length (bits s) = length (bits self)
    /\ (forall w, mem s w = true <-> mem self w = true \/ w ∈ vals)
    /\ (words_small sizeof_INT_T self -> words_small sizeof_INT_T s).
Proof.
  induction vals as [| val rest IH]; intros self Hall.
  - exists self. simpl. split; [done |]. split; [done |]. split; [| done].
    intros w. rewrite elem_of_nil. tauto.
  - apply Forall_cons in Hall as [Hfit Hrest].
    pose proof (bitset_add_run _ sizeof_pos self val Hfit) as Hrun.
    pose proof (bitset_add_length _ sizeof_pos _ _ _ _ Hfit Hrun) as Hlen.
    pose proof (bitset_add_sets _ sizeof_pos _ _ _ _ Hfit Hrun) as Hset.
    destruct (IH _ (Forall_impl _ _ _ Hrest
                      (fun v => fits_same_length self _ v Hlen)))
      as (s & Hs & Hl & Hm & Hw).
    exists s. simpl. rewrite Hrun. split; [exact Hs |].
    split; [congruence |]. split.
    + intros w. rewrite Hm, elem_of_cons.
      destruct (Z.eq_dec w val) as [-> | Hne].
      * rewrite Hset. tauto.
      * rewrite (bitset_add_frame _ sizeof_pos _ _ _ _ w Hfit Hrun Hne).
        tauto.
    + intros Hsmall. apply Hw.
      exact (bitset_add_words_small _ sizeof_pos _ _ _ _ Hfit Hsmall Hrun).
Qed.

(** After any sequence of [add]s on a new set, with every value between 0
    and the capacity hint, the members are exactly the values added, and a
    further [add] of [w] returns whether [w] is one of them. *)
Theorem bitset_members_are_added_values elements vals :
  Forall (fun val => 0 <= val <= elements) vals ->
  exists s,
    add_seq (_BitSet sizeof_INT_T elements) vals = Some s
    /\ (forall w, mem s w = true <-> w ∈ vals)
    /\ (forall w, 0 <= w <= elements ->
          exists s', add s w = Some (bool_decide (w ∈ vals), s')).
Proof.
  intros Hall.
  destruct (bitset_add_seq_run vals (_BitSet sizeof_INT_T elements))
    as (s & Hs & Hlen & Hmem & _).
  { eapply Forall_impl; [exact Hall |].
    intros v Hv. by apply _BitSet_fits. }
  assert (forall w, mem s w = true <-> w ∈ vals) as Hiff.
  { intros w. rewrite Hmem, (_BitSet_empty sizeof_INT_T). intuition congruence. }
  exists s. split; [exact Hs |]. split; [exact Hiff |].
  intros w Hw. eexists.
  rewrite (bitset_add_run _ sizeof_pos s w).
  - f_equal. f_equal. specialize (Hiff w).
    destruct (mem s w); case_bool_decide; intuition congruence.
  - apply (fits_same_length (_BitSet sizeof_INT_T elements)); [done |].
    by apply _BitSet_fits.
Qed.

(** However many values are added, every word keeps to its low
    [sizeof(INT_T)] bits and so to the non-negative range of a signed
    [INT_T] of [8*sizeof(INT_T)] bits: [(1 << rel_index) | old] never
    overflows. *)
Theorem bitset_words_never_overflow elements vals s :
  Forall (fun val => 0 <= val <= elements) vals ->
  add_seq (_BitSet sizeof_INT_T elements) vals = Some s ->
  Forall (fun w => 0 <= w < 2 ^ sizeof_INT_T) (bits s)
  /\ Forall (fun w => 0 <= w < 2 ^ (8 * sizeof_INT_T - 1)) (bits s).
Proof.
  intros Hall Hs.
  destruct (bitset_add_seq_run vals (_BitSet sizeof_INT_T elements))
    as (s' & Hs' & _ & _ & Hsmall).
  { eapply Forall_impl; [exact Hall |].
    intros v Hv. by apply _BitSet_fits. }
  assert (s' = s) as -> by congruence.
  specialize (Hsmall (new_bitset_words_small _ sizeof_pos elements)).
  split; [exact Hsmall |].
  eapply Forall_impl; [exact Hsmall |]. simpl. intros w [Hlo Hhi].
  split; [done |]. eapply Z.lt_le_trans; [exact Hhi |].
  apply Z.pow_le_mono_r; lia.
Qed.

(** Adding a value a second time returns true and leaves the set as the
    first [add] left it. *)
Theorem bitset_add_again (self : BitSet) val :
  fits self val ->
  exists s1,
    add self val = Some (mem self val, s1)
    /\ add s1 val = Some (true, s1).
Proof.
  intros Hfit. pose proof (bitset_add_run _ sizeof_pos self val Hfit) as Hrun.
  eexists. split; [exact Hrun |].
  pose proof (bitset_add_length _ sizeof_pos _ _ _ _ Hfit Hrun) as Hlen.
  pose proof (fits_same_length self _ val Hlen Hfit) as Hfit1.
  rewrite (bitset_add_run _ sizeof_pos _ val Hfit1).
  rewrite (bitset_add_sets _ sizeof_pos _ _ _ _ Hfit Hrun).
  destruct Hfit as [Hval Hcap].
  assert (0 <= val / sizeof_INT_T) by (apply Z.div_pos; lia).
  simpl. rewrite list_lookup_insert_eq by lia. simpl.
  rewrite list_insert_insert_eq, Z.lor_assoc, Z.lor_diag. reflexivity.
Qed.

(** The order of two [add]s does not matter for the resulting set. *)
Theorem bitset_add_order (self : BitSet) v w :
  fits self v -> fits self w ->
  is_Some (add_seq self [v; w])
  /\ add_seq self [v; w] = add_seq self [w; v].
Proof.
  intros Hv Hw.
  pose proof (bitset_add_run _ sizeof_pos self v Hv) as Hrv.
  pose proof (bitset_add_run _ sizeof_pos self w Hw) as Hrw.
  pose proof (fits_same_length self _ w
                (bitset_add_length _ sizeof_pos _ _ _ _ Hv Hrv) Hw) as Hw1.
  pose proof (fits_same_length self _ v
                (bitset_add_length _ sizeof_pos _ _ _ _ Hw Hrw) Hv) as Hv1.
  simpl. rewrite Hrv, Hrw.
  rewrite (bitset_add_run _ sizeof_pos _ w Hw1).
  rewrite (bitset_add_run _ sizeof_pos _ v Hv1).
  split; [eauto |]. f_equal. f_equal. simpl.
  destruct Hv as [Hv0 Hvc], Hw as [Hw0 Hwc].
  assert (0 <= v / sizeof_INT_T) by (apply Z.div_pos; lia).
  assert (0 <= w / sizeof_INT_T) by (apply Z.div_pos; lia).
  destruct (decide (Z.to_nat (v / sizeof_INT_T) = Z.to_nat (w / sizeof_INT_T)))
    as [Heq | Hne].
  - rewrite <- Heq. rewrite !list_lookup_insert_eq by lia. simpl.
    rewrite !list_insert_insert_eq. f_equal.
    rewrite !Z.lor_assoc. f_equal. apply Z.lor_comm.
  - rewrite (list_lookup_insert_ne _ _ _ _ Hne).
    rewrite (list_lookup_insert_ne _ _ _ _ (not_eq_sym Hne)).
    by apply list_insert_insert_ne, not_eq_sym.
Qed.

(** A new set takes exactly the values from 0 up to the end of its last
    word: [add] is defined for [0 <= val < (elements/sizeof(INT_T) + 1) *
    sizeof(INT_T)] and for no other value. *)
Theorem bitset_capacity elements val :
  0 <= elements ->
  is_Some (add (_BitSet sizeof_INT_T elements) val)
  <-> 0 <= val < (elements / sizeof_INT_T + 1) * sizeof_INT_T.
Proof.
  intros He. rewrite bitset_add_defined. unfold bitset_fits, _BitSet. simpl.
  rewrite length_replicate.
  assert (0 <= elements / sizeof_INT_T) by (apply Z.div_pos; lia).
  rewrite Z2Nat.id by lia.
  pose proof (Z.mod_pos_bound val sizeof_INT_T sizeof_pos) as Hm.
  pose proof (Z.div_mod val sizeof_INT_T ltac:(lia)) as Hdm.
  split; intros [H0 H1]; (split; [done |]); nia.
Qed.
End BitSetSequences.

Lemma bitset_members_are_added_values_witness :
  0 < 4 /\ Forall (fun val => 0 <= val <= 8) [5; 0; 5] /\
  exists s,
    bitset_add_seq 4 (_BitSet 4 8) [5; 0; 5] = Some s
    /\ (forall w, bitset_mem 4 s w = true <-> w ∈ [5; 0; 5])
    /\ (forall w, 0 <= w <= 8 ->
          exists s', bitset_add 4 s w = Some (bool_decide (w ∈ [5; 0; 5]), s')).
Proof.
  assert (Forall (fun val => 0 <= val <= 8) [5; 0; 5]) as Hall.
  { repeat constructor; lia. }
  split; [lia |]. split; [exact Hall |].
  exact (bitset_members_are_added_values 4 ltac:(lia) 8 [5; 0; 5] Hall).
Defined.

Lemma bitset_words_never_overflow_witness :
  0 < 4 /\ Forall (fun val => 0 <= val <= 8) [5; 0; 7] /\
  bitset_add_seq 4 (_BitSet 4 8) [5; 0; 7] = Some (MkBitSet [1; 10; 0]) /\
  Forall (fun w => 0 <= w < 2 ^ 4) [1; 10; 0]
  /\ Forall (fun w => 0 <= w < 2 ^ (8 * 4 - 1)) [1; 10; 0].
Proof.
  assert (Forall (fun val => 0 <= val <= 8) [5; 0; 7]) as Hall.
  { repeat constructor; lia. }
  split; [lia |]. split; [exact Hall |]. split; [reflexivity |].
  exact (bitset_words_never_overflow 4 ltac:(lia) 8 [5; 0; 7]
           (MkBitSet [1; 10; 0]) Hall eq_refl).
Defined.

Lemma bitset_add_again_witness :
  0 < 4 /\ bitset_fits 4 (MkBitSet [1; 0; 0]) 5 /\
  exists s1,
    bitset_add 4 (MkBitSet [1; 0; 0]) 5
    = Some (bitset_mem 4 (MkBitSet [1; 0; 0]) 5, s1)
    /\ bitset_add 4 s1 5 = Some (true, s1).
Proof.
  assert (bitset_fits 4 (MkBitSet [1; 0; 0]) 5) as Hfit.
  { unfold bitset_fits; simpl. split; [lia |]. vm_compute. reflexivity. }
  split; [lia |]. split; [exact Hfit |].
  exact (bitset_add_again 4 ltac:(lia) (MkBitSet [1; 0; 0]) 5 Hfit).
Defined.

Lemma bitset_add_order_witness :
  0 < 4 /\ bitset_fits 4 (MkBitSet [0; 0; 0]) 5 /\
  bitset_fits 4 (MkBitSet [0; 0; 0]) 6 /\
  is_Some (bitset_add_seq 4 (MkBitSet [0; 0; 0]) [5; 6])
  /\ bitset_add_seq 4 (MkBitSet [0; 0; 0]) [5; 6]
     = bitset_add_seq 4 (MkBitSet [0; 0; 0]) [6; 5].
Proof.
  assert (bitset_fits 4 (MkBitSet [0; 0; 0]) 5) as H5.
  { unfold bitset_fits; simpl. split; [lia |]. vm_compute. reflexivity. }
  assert (bitset_fits 4 (MkBitSet [0; 0; 0]) 6) as H6.
  { unfold bitset_fits; simpl. split; [lia |]. vm_compute. reflexivity. }
  split; [lia |]. split; [exact H5 |]. split; [exact H6 |].
  exact (bitset_add_order 4 ltac:(lia) (MkBitSet [0; 0; 0]) 5 6 H5 H6).
Defined.

Lemma bitset_capacity_witness :
  0 < 4 /\ 0 <= 5 /\
  (is_Some (bitset_add 4 (_BitSet 4 5) 7) <-> 0 <= 7 < (5 / 4 + 1) * 4).
Proof.
  split; [lia |]. split; [lia |].
  exact (bitset_capacity 4 ltac:(lia) 5 7 ltac:(lia)).
Defined.

(** A set built for values up to 5 with 4-byte words takes 7, the last bit
    of its second word, and not 8. *)
Example new_bitset_for_5_takes_7 :
  bitset_add 4 (_BitSet 4 5) 7 = Some (false, MkBitSet [0; 8])
  /\ bitset_add 4 (_BitSet 4 5) 8 = None
  /\ bitset_add 4 (_BitSet 4 5) (-1) = None.
Proof. repeat split; vm_compute; reflexivity. Qed.

(** ** Division by zero *)

(** A division by a zero of either sign raises [ZeroDivisionError] and
    returns nothing.  The copying variants leave the store as it was.  The
    mutating variants stop at the failing check: a zero scalar, checked
    before the first write, leaves the receiver untouched; a vector divisor
    whose second component alone is zero leaves the receiver with its first
    component divided and its second as it was. *)
Theorem division_by_zero_raises prec emax
    (hv : heap Vector2D) (hm : heap Matrix2x2) p q v a w s :
  hv !! p = Some v -> hm !! q = Some a ->
  is_zero s = true -> is_zero (vx w) = false -> is_zero (vy w) = true ->
  v_sdiv_c prec emax p s hv = Some (Raised float_division, hv)
  /\ v_sdiv_s prec emax p s hv = Some (Raised float_division, hv)
  /\ m_sdiv_c prec emax q s hm = Some (Raised float_division, hm)
  /\ m_sdiv_s prec emax q s hm = Some (Raised float_division, hm)
  /\ v_vdiv_c prec emax p w hv = Some (Raised float_division, hv)
  /\ v_vdiv_s prec emax p w hv
     = Some (Raised float_division,
             <[p := MkVector2D (fdiv prec emax (vx v) (vx w)) (vy v)]> hv).
Proof.
  intros Hv Ha Hs Hx Hy.
  unfold v_sdiv_c, v_sdiv_s, m_sdiv_c, m_sdiv_s, v_vdiv_c, v_vdiv_s.
  rewrite Hs, Hx, Hy. repeat split.
  - repeat first [ heap_step | progress cbv iota ]. reflexivity.
  - repeat first [ heap_step | progress cbv iota ]. reflexivity.
Qed.

Lemma division_by_zero_raises_witness :
  vec_heap 6 4 !! 1 = Some (MkVector2D (F64 6) (F64 4)) /\
  mat_heap 2 4 6 8 !! 1
  = Some (MkMatrix2x2 (F64 2) (F64 4) (F64 6) (F64 8)) /\
  is_zero (F64 0) = true /\ is_zero (F64 2) = false /\
  v_sdiv_c 53 1024 1 (F64 0) (vec_heap 6 4)
  = Some (Raised float_division, vec_heap 6 4)
  /\ v_sdiv_s 53 1024 1 (F64 0) (vec_heap 6 4)
     = Some (Raised float_division, vec_heap 6 4)
  /\ v_vdiv_s 53 1024 1 (MkVector2D (F64 2) (F64 0)) (vec_heap 6 4)
     = Some (Raised float_division,
             <[1 := MkVector2D (fdiv 53 1024 (F64 6) (F64 2)) (F64 4)]>
               (vec_heap 6 4)).
Proof.
  split; [reflexivity |]. split; [reflexivity |].
  split; [reflexivity |]. split; [reflexivity |].
  pose proof (division_by_zero_raises 53 1024 (vec_heap 6 4)
                (mat_heap 2 4 6 8) 1 1 _ _ (MkVector2D (F64 2) (F64 0))
                (F64 0) eq_refl eq_refl eq_refl eq_refl eq_refl) as H.
  exact (conj (proj1 H)
           (conj (proj1 (proj2 H))
                 (proj2 (proj2 (proj2 (proj2 (proj2 H))))))).
Defined.

(** On doubles: [(6,4)] divided in place by [(2,0)] raises with [(3,4)] in
    the receiver; a negative zero raises as well and a NaN divisor does
    not. *)
Example v_vdiv_s_6_4_by_2_0 :
  v_vdiv_s 53 1024 1 (MkVector2D (F64 2) (F64 0)) (vec_heap 6 4)
  = Some (Raised float_division, vec_heap 3 4)
  /\ v_sdiv_c 53 1024 1 (S754_zero true) (vec_heap 6 4)
     = Some (Raised float_division, vec_heap 6 4)
  /\ v_sdiv_c 53 1024 1 S754_nan (vec_heap 6 4)
     = Some (Done (MkVector2D S754_nan S754_nan), vec_heap 6 4).
Proof. repeat split; vm_compute; reflexivity. Qed.

(** ** Frame of every table call *)

Ltac frame_of_result :=
  eexists _, _; split; [reflexivity |];
  split; [intros ? ?; rewrite ?lookup_insert_ne by done; reflexivity |];
  split; [rewrite ?dom_insert_lookup_L by eauto; reflexivity |];
  first [ by intros ? [= <-] | by intros ? [=] ].

Ltac raise_run :=
  repeat first [ heap_step | progress cbv iota ]; cbv [ret raise]; simpl.

(** Whether it returns or raises, a mutating call through a table changes no
    cell but the receiver's, adds none, and what it returns is the
    receiver's pointer; a copying call never changes the store. *)
Theorem table_calls_frame prec emax
    (hv : heap Vector2D) (hm : heap Matrix2x2) p q v a vop mop :
  hv !! p = Some v -> hm !! q = Some a ->
  (exists res hv',
      vector_self prec emax vop p hv = Some (res, hv')
      /\ (forall p', p' <> p -> hv' !! p' = hv !! p')
      /\ dom hv' = dom hv
      /\ (forall r, res = Done r -> r = p))
  /\ (exists res, vector_copy prec emax vop p hv = Some (res, hv))
  /\ (exists res hm',
         matrix_self prec emax mop q hm = Some (res, hm')
         /\ (forall q', q' <> q -> hm' !! q' = hm !! q')
         /\ dom hm' = dom hm
         /\ (forall r, res = Done r -> r = q))
  /\ (exists res, matrix_copy prec emax mop q hm = Some (res, hm)).
Proof.
  intros Hv Ha. split; [| split; [| split]].
  - destruct (vector_op_raises vop) eqn:Hz.
    + destruct vop; try discriminate; simpl;
        unfold v_vdiv_s, v_sdiv_s;
        repeat (destruct (is_zero _)); raise_run; frame_of_result.
    + rewrite (vector_self_run prec emax vop hv p v Hv Hz). frame_of_result.
  - destruct (vector_op_raises vop) eqn:Hz.
    + destruct vop; try discriminate; simpl;
        unfold v_vdiv_c, v_sdiv_c;
        repeat (destruct (is_zero _)); raise_run; by eexists.
    + rewrite (vector_copy_run prec emax vop hv p v Hv Hz). by eexists.
  - destruct (matrix_op_raises mop) eqn:Hz.
    + destruct mop; try discriminate; simpl;
        unfold m_mdiv_s, m_sdiv_s;
        repeat (destruct (is_zero _)); raise_run; frame_of_result.
    + rewrite (matrix_self_run prec emax mop hm q a Ha Hz). frame_of_result.
  - destruct (matrix_op_raises mop) eqn:Hz.
    + destruct mop; try discriminate; simpl;
        unfold m_mdiv_c, m_sdiv_c;
        repeat (destruct (is_zero _)); raise_run; by eexists.
    + rewrite (matrix_copy_run prec emax mop hm q a Ha Hz). by eexists.
Qed.

Lemma table_calls_frame_witness :
  vec_heap 6 4 !! 1 = Some (MkVector2D (F64 6) (F64 4)) /\
  mat_heap 2 4 6 8 !! 1
  = Some (MkMatrix2x2 (F64 2) (F64 4) (F64 6) (F64 8)) /\
  (exists res hv',
      vector_self 53 1024 (Vvdiv (MkVector2D (F64 2) (F64 0))) 1 (vec_heap 6 4)
      = Some (res, hv')
      /\ (forall p', p' <> 1 -> hv' !! p' = vec_heap 6 4 !! p')
      /\ dom hv' = dom (vec_heap 6 4)
      /\ (forall r, res = Done r -> r = 1))
  /\ (exists res,
         vector_copy 53 1024 (Vvdiv (MkVector2D (F64 2) (F64 0))) 1
           (vec_heap 6 4) = Some (res, vec_heap 6 4)).
Proof.
  split; [reflexivity |]. split; [reflexivity |].
  pose proof (table_calls_frame 53 1024 (vec_heap 6 4) (mat_heap 2 4 6 8)
                1 1 _ _ (Vvdiv (MkVector2D (F64 2) (F64 0))) Mneg
                eq_refl eq_refl) as H.
  exact (conj (proj1 H) (proj1 (proj2 H))).
Defined.
